(** * FunWithShapes: the shape hierarchy of Shape.cc and Shape_RAII.cc

    A shallow embedding of the two translation units of the repository.
    [double] is IEEE 754 binary64, embedded as Rocq's primitive [float];
    the free store is a finite map from locations to cells; [cout] is the
    list of items streamed to it.  Code that touches the free store or
    [cout] lives in the monad [M]; a run either ends in [Ok] with a result
    and the new world, or in a [Fault] (an access the language leaves
    undefined: a second [delete], a dangling pointer, the read of a
    member that was never assigned). *)

From Stdlib Require Import Reals Lra Machin ZArith String List.
From Stdlib Require Import Floats.
From stdpp Require Import gmap strings.

#[local] Set Warnings "-inexact-float".
#[local] Open Scope string_scope.

(** ** Free store and output stream *)

Abbreviation loc := positive.

(** What [operator<<] receives: a string literal or [std::string], a
    [double], or [endl]. *)
Inductive out_item :=
| OStr (s : string)
| ODouble (d : float)
| OEndl.

Inductive fault :=
| InvalidFree (l : loc)
| InvalidAccess (l : loc)
| IndeterminateValue
| BadCast.

Section Store.
Context {obj : Type}.

(** A block of the free store: storage obtained for an object whose
    constructor has not finished, a complete object made by [new] or
    [make_shared]/[make_unique], a [double] made by [new double]
    (indeterminate until assigned), or the control block of a group of
    [shared_ptr]s with its use count and the location it manages. *)
Inductive cell :=
| CRaw
| CObj (o : obj)
| CDouble (d : option float)
| CCtrl (use_count : nat) (managed : loc).

Record world := World { heap : gmap loc cell; cout : list out_item }.

Inductive outcome (A : Type) :=
| Ok (a : A) (w : world)
| Fault (f : fault).
#[global] Arguments Ok {A} a w.
#[global] Arguments Fault {A} f.

Definition M (A : Type) : Type := world -> outcome A.

Definition ret {A} (a : A) : M A := fun w => Ok a w.

Definition bind {A B} (m : M A) (k : A -> M B) : M B :=
  fun w => match m w with
           | Ok a w' => k a w'
           | Fault f => Fault f
           end.

Definition fail {A} (f : fault) : M A := fun _ => Fault f.

(** [new]: a block at a location that is not in use. *)
Definition alloc (c : cell) : M loc :=
  fun w => let l := fresh (dom (heap w)) in
           Ok l (World (<[l := c]> (heap w)) (cout w)).

(** [delete]'s deallocation: the block must be live. *)
Definition dealloc (l : loc) : M unit :=
  fun w => match heap w !! l with
           | Some _ => Ok tt (World (delete l (heap w)) (cout w))
           | None => Fault (InvalidFree l)
           end.

Definition load (l : loc) : M cell :=
  fun w => match heap w !! l with
           | Some c => Ok c w
           | None => Fault (InvalidAccess l)
           end.

Definition store (l : loc) (c : cell) : M unit :=
  fun w => match heap w !! l with
           | Some _ => Ok tt (World (<[l := c]> (heap w)) (cout w))
           | None => Fault (InvalidAccess l)
           end.

Definition load_obj (l : loc) : M obj :=
  bind (load l) (fun c => match c with
                          | CObj o => ret o
                          | _ => fail BadCast
                          end).

(** [*p] for [double* p], as an rvalue. *)
Definition load_double (l : loc) : M float :=
  bind (load l) (fun c => match c with
                          | CDouble (Some d) => ret d
                          | CDouble None => fail IndeterminateValue
                          | _ => fail BadCast
                          end).

(** [*p = d] for [double* p]. *)
Definition store_double (l : loc) (d : float) : M unit :=
  bind (load l) (fun c => match c with
                          | CDouble _ => store l (CDouble (Some d))
                          | _ => fail BadCast
                          end).

(** [delete p] for [double* p]: no destructor, only deallocation. *)
Definition delete_double (l : loc) : M unit :=
  bind (load l) (fun c => match c with
                          | CDouble _ => dealloc l
                          | _ => fail BadCast
                          end).

(** The value of a data member that a constructor may have left
    unassigned. *)
Definition read (v : option float) : M float :=
  match v with
  | Some d => ret d
  | None => fail IndeterminateValue
  end.

(** [cout << i1 << ... << in]. *)
Definition print (items : list out_item) : M unit :=
  fun w => Ok tt (World (heap w) (cout w ++ items)).

(** *** <memory>

    A [shared_ptr] is represented by the location of the control block
    of its group; a [unique_ptr] by the location of its object. *)

(** [make_shared<T>(args)]: the object, and a control block that counts
    one owner. *)
Definition make_shared (ctor : M obj) : M loc :=
  bind (alloc CRaw) (fun p =>
  bind ctor (fun this =>
  bind (store p (CObj this)) (fun _ =>
  alloc (CCtrl 1 p)))).

(** [sp.get()], used by [*sp] and [sp->]. *)
Definition sp_get (sp : loc) : M loc :=
  bind (load sp) (fun c => match c with
                           | CCtrl _ p => ret p
                           | _ => fail BadCast
                           end).

(** Copy construction [shared_ptr<U> sp2 = sp]: one more owner of the same
    control block. *)
Definition sp_copy (sp : loc) : M loc :=
  bind (load sp) (fun c => match c with
                           | CCtrl n p => bind (store sp (CCtrl (S n) p))
                                               (fun _ => ret sp)
                           | _ => fail BadCast
                           end).

(** The destructor of one [shared_ptr]: one owner fewer; the last owner
    runs [destroy] on the managed object, then the control block goes. *)
Definition sp_release (destroy : loc -> M unit) (sp : loc) : M unit :=
  bind (load sp) (fun c => match c with
                           | CCtrl (S (S n)) p => store sp (CCtrl (S n) p)
                           | CCtrl 1 p => bind (destroy p) (fun _ => dealloc sp)
                           | _ => fail BadCast
                           end).
End Store.

#[global] Arguments cell : clear implicits.
#[global] Arguments world : clear implicits.
#[global] Arguments outcome : clear implicits.
#[global] Arguments M : clear implicits.

#[global] Instance M_ret {obj} : MRet (M obj) := @ret obj.
#[global] Instance M_bind {obj} : MBind (M obj) := fun A B k m => bind m k.
#[global] Instance M_fmap {obj} : FMap (M obj) :=
  fun A B f m => bind m (fun a => ret (f a)).

(** ** <cmath> *)

(** [sqrt] on [double] is the correctly rounded IEEE operation, which is
    [PrimFloat.sqrt].  [pow] is a library function whose rounding the
    language leaves to the implementation: it is kept abstract. *)
Class Cmath := { pow : float -> float -> float }.

(** One implementation, to run the embedding on concrete inputs: the
    product [x * x] at exponent 2, the only exponent the two programs
    pass; not a number elsewhere.  This is what an optimising compiler
    emits for [pow(x, 2)]; the library function may return a neighbour of
    the product instead. *)
Definition pow_squares : Cmath :=
  {| pow x y := if (y =? 2)%float then (x * x)%float else nan |}.

(** [p] is the double [q], the next double above it or the next below. *)
Definition neighbours (p q : float) : Prop :=
  p = q \/ p = next_up q \/ p = next_down q.

(** What the C library documents for [pow], read at exponent 2: an error
    of at most one unit in the last place, so that [pow x 2] is the
    correctly rounded square [x * x] or a double next to it; and
    [pow(1, y)] is 1 (C Annex F). *)
Definition within_one_ulp `{Cmath} : Prop :=
  (forall x : float, neighbours (pow x 2) (x * x)%float)
  /\ pow 1 2 = 1%float.

(** glibc's [pow] is within that bound and not correctly rounded: at
    (96.03, 2) it returns 0x1.202e1652bd3c4p+13, the double above the
    product 0x1.202e1652bd3c3p+13.  [pow_glibc_96_03] is a library within
    the bound that agrees with glibc there; at the other arguments it
    returns the product. *)
Definition pow_glibc_96_03 : Cmath :=
  {| pow x y :=
       if (y =? 2)%float
       then if (x =? 96.03)%float then next_up (x * x) else (x * x)%float
       else nan |}.

(** A reference to a part of type [A] inside an [S]: what a member function
    returning [A&] hands out.  [rd] reads through it, [wr] assigns. *)
Record ref (S A : Type) := Ref { rd : S -> A; wr : A -> S -> S }.
Arguments Ref {S A} rd wr.
Arguments rd {S A} r s.
Arguments wr {S A} r a s.

(** The arguments of a constructor call, one case per class that can be
    instantiated, and the two virtual member functions: the vocabulary in
    which statements about "every variant" and "either accessor" are made
    for both translation units. *)
Inductive ctor_args :=
| MkCircle (name : string) (radius : float)
| MkPolygon (name : string) (sides : N)
| MkRectangle (name : string) (side1 side2 : float)
| MkSquare (name : string) (side : float)
| MkTrapezoid (name : string) (long_side short_side height : float).

Definition name_arg (args : ctor_args) : string :=
  match args with
  | MkCircle name _ | MkPolygon name _ | MkRectangle name _ _
  | MkSquare name _ | MkTrapezoid name _ _ _ => name
  end.

Inductive getter := GetArea | GetPerimeter.

(** What a run shows to an observer of the program: its result and the
    text on [cout], or the fault. *)
Definition observe {obj A} (r : outcome obj A) : fault + A * list out_item :=
  match r with
  | Ok a w => inr (a, cout w)
  | Fault f => inl f
  end.

(** [m; ...; m], [n] times, with the values returned. *)
Fixpoint iterate {obj A} (n : nat) (m : M obj A) : M obj (list A) :=
  match n with
  | O => mret []
  | S n' =>
      a ← m;
      l ← iterate n' m;
      mret (a :: l)
  end.

(** ** Shape.cc *)

Module Shape_cc.
#[local] Open Scope float_scope.

(** Line 23. *)
Definition PI : float := 3.14159.

Inductive klass := KShape | KCircle | KPolygon | KRectangle | KSquare | KTrapezoid.

Definition klass_eqb (a b : klass) : bool :=
  match a, b with
  | KShape, KShape | KCircle, KCircle | KPolygon, KPolygon
  | KRectangle, KRectangle | KSquare, KSquare | KTrapezoid, KTrapezoid => true
  | _, _ => false
  end.

(** Lines 27-48. *)
Module Shape.
Record t := { m_name : string }.

(** The protected constructor, line 32.  The characters of [m_name] are
    the [std::string]'s own: whatever storage it takes for them it
    releases in its destructor, and the free store of the embedding holds
    the blocks the program takes with [new] only. *)
Definition Shape (name : string) : t := {| m_name := name |}.

(** [string& get_name(void) { return m_name; }] *)
Definition get_name : ref t string :=
  Ref m_name (fun s _ => {| m_name := s |}).

Definition dtor {obj} (this : t) : M obj unit := mret tt.
End Shape.

(** Lines 50-71. *)
Module Circle.
Record t := { base : Shape.t;
              m_radius : float; m_area : float; m_perimeter : float }.

Definition Circle (name : string) (radius : float) : t :=
  {| base := Shape.Shape name;
     m_radius := radius;
     m_area := radius * radius * PI;
     m_perimeter := radius * 2 * PI |}.

Section Members.
Context {obj : Type}.
Definition get_area (this : t) : M obj float := mret (m_area this).
Definition get_perimeter (this : t) : M obj float := mret (m_perimeter this).
Definition dtor (this : t) : M obj unit := Shape.dtor (base this).
End Members.
End Circle.

(** Lines 73-89.  The constructor initialises the name and the number
    of sides only: [m_area] and [m_perimeter] stay indeterminate until a
    derived constructor assigns them. *)
Module Polygon.
Record t := { base : Shape.t; m_sides : N;
              m_area : option float; m_perimeter : option float }.

Definition Polygon (name : string) (sides : N) : t :=
  {| base := Shape.Shape name; m_sides := sides;
     m_area := None; m_perimeter := None |}.

(** Assignments [m_area = a] and [m_perimeter = p], made by derived
    constructors to the protected members. *)
Definition set_m_area (a : float) (this : t) : t :=
  {| base := base this; m_sides := m_sides this;
     m_area := Some a; m_perimeter := m_perimeter this |}.
Definition set_m_perimeter (p : float) (this : t) : t :=
  {| base := base this; m_sides := m_sides this;
     m_area := m_area this; m_perimeter := Some p |}.

Section Members.
Context {obj : Type}.
Definition get_area (this : t) : M obj float := read (m_area this).
Definition get_perimeter (this : t) : M obj float := read (m_perimeter this).
Definition dtor (this : t) : M obj unit := Shape.dtor (base this).
End Members.
End Polygon.

(** Lines 91-108. *)
Module Rectangle.
Record t := { base : Polygon.t; m_side1 : float; m_side2 : float }.

Definition Rectangle (name : string) (side1 side2 : float) : t :=
  let this := Polygon.Polygon name 4 in
  let this := Polygon.set_m_area (side1 * side2) this in
  let this := Polygon.set_m_perimeter ((side1 + side2) * 2) this in
  {| base := this; m_side1 := side1; m_side2 := side2 |}.

Section Members.
Context {obj : Type}.
(** [override final], line 106. *)
Definition get_perimeter (this : t) : M obj float :=
  read (Polygon.m_perimeter (base this)).
Definition dtor (this : t) : M obj unit := Polygon.dtor (base this).
End Members.
End Rectangle.

(** Lines 110-130. *)
Module Square.
Record t := { base : Rectangle.t }.

Definition Square (name : string) (side : float) : t :=
  {| base := Rectangle.Rectangle name side side |}.

Section Members.
Context {obj : Type}.
Definition get_area (this : t) : M obj float :=
  print [OStr "The square of "; ODouble (Rectangle.m_side1 (base this));
         OStr "!"; OEndl];;
  read (Polygon.m_area (Rectangle.base (base this))).
Definition dtor (this : t) : M obj unit := Rectangle.dtor (base this).
End Members.
End Square.

(** Lines 133-165. *)
Module Trapezoid.
Record t := { base : Polygon.t;
              m_long_side : float; m_short_side : float; m_height : float;
              m_angled_side_length : loc }.

Section Members.
Context {obj : Type} `{Cmath}.

Definition Trapezoid (name : string) (long_side short_side height : float)
  : M obj t :=
  let this := Polygon.Polygon name 4 in
  let this := Polygon.set_m_area (height * (long_side + short_side) / 2) this in
  angled ← alloc (CDouble None);
  store_double angled (sqrt (pow ((long_side - short_side) / 2) 2
                             + pow height 2));;
  a ← load_double angled;
  let this := Polygon.set_m_perimeter (short_side + long_side + 2 * a) this in
  mret {| base := this;
          m_long_side := long_side; m_short_side := short_side;
          m_height := height; m_angled_side_length := angled |}.

(** Lines 157-161: the body, then the base class destructor. *)
Definition dtor (this : t) : M obj unit :=
  delete_double (m_angled_side_length this);;
  Polygon.dtor (base this).
End Members.
End Trapezoid.

(** The complete objects a program can create: one case per class that can
    be instantiated.  [Shape] cannot (protected constructor, two pure
    virtual members). *)
Inductive object :=
| OCircle (c : Circle.t)
| OPolygon (p : Polygon.t)
| ORectangle (r : Rectangle.t)
| OSquare (s : Square.t)
| OTrapezoid (t : Trapezoid.t).

Definition dynamic_type (this : object) : klass :=
  match this with
  | OCircle _ => KCircle
  | OPolygon _ => KPolygon
  | ORectangle _ => KRectangle
  | OSquare _ => KSquare
  | OTrapezoid _ => KTrapezoid
  end.

(** The direct base class named in each class head. *)
Definition parent (k : klass) : option klass :=
  match k with
  | KShape => None
  | KCircle => Some KShape
  | KPolygon => Some KShape
  | KRectangle => Some KPolygon
  | KSquare => Some KRectangle
  | KTrapezoid => Some KPolygon
  end.

(** [derives d b]: [b] is [d] or one of its bases, so that a [d*] converts
    to a [b*].  The walk up the [parent] links is bounded by the depth of
    the hierarchy. *)
Fixpoint derives_within (depth : nat) (d b : klass) : bool :=
  klass_eqb d b
  || match depth, parent d with
     | S depth', Some d' => derives_within depth' d' b
     | _, _ => false
     end.

Definition derives : klass -> klass -> bool := derives_within 3.

(** Base class subobjects. *)
Definition as_Rectangle (this : object) : option Rectangle.t :=
  match this with
  | ORectangle r => Some r
  | OSquare s => Some (Square.base s)
  | _ => None
  end.

Definition as_Polygon (this : object) : option Polygon.t :=
  match this with
  | OPolygon p => Some p
  | ORectangle r => Some (Rectangle.base r)
  | OSquare s => Some (Rectangle.base (Square.base s))
  | OTrapezoid t => Some (Trapezoid.base t)
  | OCircle _ => None
  end.

Definition as_Shape (this : object) : Shape.t :=
  match this with
  | OCircle c => Circle.base c
  | OPolygon p => Polygon.base p
  | ORectangle r => Polygon.base (Rectangle.base r)
  | OSquare s => Polygon.base (Rectangle.base (Square.base s))
  | OTrapezoid t => Polygon.base (Trapezoid.base t)
  end.

Definition Polygon_with_Shape (b : Shape.t) (p : Polygon.t) : Polygon.t :=
  {| Polygon.base := b; Polygon.m_sides := Polygon.m_sides p;
     Polygon.m_area := Polygon.m_area p;
     Polygon.m_perimeter := Polygon.m_perimeter p |}.

Definition Rectangle_with_Shape (b : Shape.t) (r : Rectangle.t) : Rectangle.t :=
  {| Rectangle.base := Polygon_with_Shape b (Rectangle.base r);
     Rectangle.m_side1 := Rectangle.m_side1 r;
     Rectangle.m_side2 := Rectangle.m_side2 r |}.

(** The object with its [Shape] subobject replaced. *)
Definition with_Shape (b : Shape.t) (this : object) : object :=
  match this with
  | OCircle c =>
      OCircle {| Circle.base := b; Circle.m_radius := Circle.m_radius c;
                 Circle.m_area := Circle.m_area c;
                 Circle.m_perimeter := Circle.m_perimeter c |}
  | OPolygon p => OPolygon (Polygon_with_Shape b p)
  | ORectangle r => ORectangle (Rectangle_with_Shape b r)
  | OSquare s => OSquare {| Square.base := Rectangle_with_Shape b (Square.base s) |}
  | OTrapezoid t =>
      OTrapezoid {| Trapezoid.base := Polygon_with_Shape b (Trapezoid.base t);
                    Trapezoid.m_long_side := Trapezoid.m_long_side t;
                    Trapezoid.m_short_side := Trapezoid.m_short_side t;
                    Trapezoid.m_height := Trapezoid.m_height t;
                    Trapezoid.m_angled_side_length :=
                      Trapezoid.m_angled_side_length t |}
  end.

(** [get_name] is not virtual: every class inherits [Shape::get_name], which
    refers to the name held in the [Shape] subobject. *)
Definition get_name : ref object string :=
  Ref (fun this => rd Shape.get_name (as_Shape this))
      (fun s this => with_Shape (wr Shape.get_name s (as_Shape this)) this).

(** Virtual calls: the final overrider of the dynamic type. *)
Definition get_area (this : object) : M object float :=
  match this with
  | OCircle c => Circle.get_area c
  | OPolygon p => Polygon.get_area p
  | ORectangle r => Polygon.get_area (Rectangle.base r)
  | OSquare s => Square.get_area s
  | OTrapezoid t => Polygon.get_area (Trapezoid.base t)
  end.

Definition get_perimeter (this : object) : M object float :=
  match this with
  | OCircle c => Circle.get_perimeter c
  | OPolygon p => Polygon.get_perimeter p
  | ORectangle r => Rectangle.get_perimeter r
  | OSquare s => Rectangle.get_perimeter (Square.base s)
  | OTrapezoid t => Polygon.get_perimeter (Trapezoid.base t)
  end.

(** The destructor of the most derived class. *)
Definition dtor (this : object) : M object unit :=
  match this with
  | OCircle c => Circle.dtor c
  | OPolygon p => Polygon.dtor p
  | ORectangle r => Rectangle.dtor r
  | OSquare s => Square.dtor s
  | OTrapezoid t => Trapezoid.dtor t
  end.

(** The destructor of class [k] run on the [k] subobject: what a call that
    is not dispatched selects. *)
Definition dtor_of (k : klass) (this : object) : M object unit :=
  match k, this with
  | KShape, _ => Shape.dtor (as_Shape this)
  | KCircle, OCircle c => Circle.dtor c
  | KPolygon, _ => from_option Polygon.dtor (fail BadCast) (as_Polygon this)
  | KRectangle, _ => from_option Rectangle.dtor (fail BadCast) (as_Rectangle this)
  | KSquare, OSquare s => Square.dtor s
  | KTrapezoid, OTrapezoid t => Trapezoid.dtor t
  | _, _ => fail BadCast
  end.

(** Whether the destructor of a class is declared [virtual]: lines 39, 61,
    83, 102, 116 and 157. *)
Definition virtual_dtor (k : klass) : bool :=
  match k with
  | KShape | KCircle | KPolygon | KRectangle | KSquare | KTrapezoid => true
  end.

(** [new T(args)]: storage, then the constructor. *)
Definition new_ (ctor : M object object) : M object loc :=
  p ← alloc CRaw;
  this ← ctor;
  store p (CObj this);;
  mret p.

Definition new_Circle (name : string) (radius : float) : M object loc :=
  new_ (mret (OCircle (Circle.Circle name radius))).

Definition new_Polygon (name : string) (sides : N) : M object loc :=
  new_ (mret (OPolygon (Polygon.Polygon name sides))).

Definition new_Rectangle (name : string) (side1 side2 : float) : M object loc :=
  new_ (mret (ORectangle (Rectangle.Rectangle name side1 side2))).

Definition new_Square (name : string) (side : float) : M object loc :=
  new_ (mret (OSquare (Square.Square name side))).

Definition new_Trapezoid `{Cmath} (name : string)
    (long_side short_side height : float) : M object loc :=
  new_ (OTrapezoid <$> Trapezoid.Trapezoid name long_side short_side height).

(** [delete p] where [p] has static type [static*]: a virtual destructor
    is dispatched on the dynamic type, one that is not runs as declared
    for [static]; then the storage is released. *)
Definition delete_ (static : klass) (p : loc) : M object unit :=
  this ← load_obj p;
  (if derives (dynamic_type this) static then mret tt else fail BadCast);;
  (if virtual_dtor static then dtor this else dtor_of static this);;
  dealloc p.

(** [p->f()]. *)
Definition arrow {A} (p : loc) (f : object -> M object A) : M object A :=
  load_obj p ≫= f.

(** [p->get_name() = s]. *)
Definition assign_name (p : loc) (s : string) : M object unit :=
  this ← load_obj p;
  store p (CObj (wr get_name s this)).

(** The constructor call for given arguments. *)
Definition construct `{Cmath} (args : ctor_args) : M object object :=
  match args with
  | MkCircle name radius => mret (OCircle (Circle.Circle name radius))
  | MkPolygon name sides => mret (OPolygon (Polygon.Polygon name sides))
  | MkRectangle name side1 side2 =>
      mret (ORectangle (Rectangle.Rectangle name side1 side2))
  | MkSquare name side => mret (OSquare (Square.Square name side))
  | MkTrapezoid name long_side short_side height =>
      OTrapezoid <$> Trapezoid.Trapezoid name long_side short_side height
  end.

Definition call (g : getter) : object -> M object float :=
  match g with
  | GetArea => get_area
  | GetPerimeter => get_perimeter
  end.

(** [p->g1(); ...; p->gn()], with the values returned. *)
Fixpoint call_all (p : loc) (gs : list getter) : M object (list float) :=
  match gs with
  | [] => mret []
  | g :: gs' =>
      v ← arrow p (call g);
      vs ← call_all p gs';
      mret (v :: vs)
  end.

(** Both measurements have been assigned.  Only an object made by the
    constructor of [Polygon] itself lacks them. *)
Definition determinate (this : object) : bool :=
  match as_Polygon this with
  | Some p => bool_decide (is_Some (Polygon.m_area p))
              && bool_decide (is_Some (Polygon.m_perimeter p))
  | None => true
  end.

(** The two statement shapes of [main],
    [cout<<"The area of "<<x.get_name()<<" is: "<<x.get_area()<<endl;]
    and its twin for the perimeter.  The operands are evaluated from left
    to right (the order is unspecified before C++17; the free store does
    not depend on it). *)
Definition area_line (x : loc) : M object unit :=
  print [OStr "The area of "];;
  name ← arrow x (λ this, mret (rd get_name this));
  print [OStr name; OStr " is: "];;
  a ← arrow x get_area;
  print [ODouble a; OEndl].

Definition perimeter_line (x : loc) : M object unit :=
  print [OStr "The perimeter of "];;
  name ← arrow x (λ this, mret (rd get_name this));
  print [OStr name; OStr " is: "];;
  a ← arrow x get_perimeter;
  print [ODouble a; OEndl].

(** Lines 167-227. *)
Definition main `{Cmath} : M object Z :=
  c ← new_Circle "the hole" 2;
  let s := c in
  print [OStr "Using Shape reference to Circle object: "; OEndl];;
  area_line s;;
  perimeter_line s;;
  print [OEndl];;
  delete_ KCircle c;;
  r ← new_Rectangle "the table" 3 4;
  let s1 := r in
  print [OStr "Using Shape pointer to Rectangle object: "; OEndl];;
  area_line s1;;
  perimeter_line s1;;
  print [OEndl];;
  delete_ KShape s1;;
  q ← new_Square "the box" 1;
  let p := q in
  print [OStr "Calling from Square object: "; OEndl];;
  area_line q;;
  perimeter_line q;;
  print [OEndl];;
  print [OStr "Calling from Polygon pointer to Square object: "; OEndl];;
  area_line p;;
  perimeter_line p;;
  delete_ KPolygon p;;
  t ← new_Trapezoid "the stand" 4 2 1;
  let p := t in
  print [OStr "Calling from Polygon pointer to Trapezoid object: "; OEndl];;
  area_line p;;
  perimeter_line p;;
  print [OEndl];;
  delete_ KPolygon p;;
  mret 0%Z.
End Shape_cc.

(** ** Shape_RAII.cc

    The second translation unit, named Shape_RAII.cc by its header comment,
    repeats the hierarchy and changes [main] to hold its objects through
    [shared_ptr] and [unique_ptr]. *)

Module Shape_RAII.
#[local] Open Scope float_scope.

(** Line 27. *)
Definition PI : float := 3.14159.

Inductive klass := KShape | KCircle | KPolygon | KRectangle | KSquare | KTrapezoid.

Definition klass_eqb (a b : klass) : bool :=
  match a, b with
  | KShape, KShape | KCircle, KCircle | KPolygon, KPolygon
  | KRectangle, KRectangle | KSquare, KSquare | KTrapezoid, KTrapezoid => true
  | _, _ => false
  end.

(** Lines 31-52. *)
Module Shape.
Record t := { m_name : string }.

(** The protected constructor, line 36.  The characters of [m_name] are
    the [std::string]'s own: whatever storage it takes for them it
    releases in its destructor, and the free store of the embedding holds
    the blocks the program takes with [new] only. *)
Definition Shape (name : string) : t := {| m_name := name |}.

(** [string& get_name(void) { return m_name; }] *)
Definition get_name : ref t string :=
  Ref m_name (fun s _ => {| m_name := s |}).

Definition dtor {obj} (this : t) : M obj unit := mret tt.
End Shape.

(** Lines 54-75. *)
Module Circle.
Record t := { base : Shape.t;
              m_radius : float; m_area : float; m_perimeter : float }.

Definition Circle (name : string) (radius : float) : t :=
  {| base := Shape.Shape name;
     m_radius := radius;
     m_area := radius * radius * PI;
     m_perimeter := radius * 2 * PI |}.

Section Members.
Context {obj : Type}.
Definition get_area (this : t) : M obj float := mret (m_area this).
Definition get_perimeter (this : t) : M obj float := mret (m_perimeter this).
Definition dtor (this : t) : M obj unit := Shape.dtor (base this).
End Members.
End Circle.

(** Lines 77-93.  The constructor initialises the name and the number
    of sides only: [m_area] and [m_perimeter] stay indeterminate until a
    derived constructor assigns them. *)
Module Polygon.
Record t := { base : Shape.t; m_sides : N;
              m_area : option float; m_perimeter : option float }.

Definition Polygon (name : string) (sides : N) : t :=
  {| base := Shape.Shape name; m_sides := sides;
     m_area := None; m_perimeter := None |}.

(** Assignments [m_area = a] and [m_perimeter = p], made by derived
    constructors to the protected members. *)
Definition set_m_area (a : float) (this : t) : t :=
  {| base := base this; m_sides := m_sides this;
     m_area := Some a; m_perimeter := m_perimeter this |}.
Definition set_m_perimeter (p : float) (this : t) : t :=
  {| base := base this; m_sides := m_sides this;
     m_area := m_area this; m_perimeter := Some p |}.

Section Members.
Context {obj : Type}.
Definition get_area (this : t) : M obj float := read (m_area this).
Definition get_perimeter (this : t) : M obj float := read (m_perimeter this).
Definition dtor (this : t) : M obj unit := Shape.dtor (base this).
End Members.
End Polygon.

(** Lines 95-112. *)
Module Rectangle.
Record t := { base : Polygon.t; m_side1 : float; m_side2 : float }.

Definition Rectangle (name : string) (side1 side2 : float) : t :=
  let this := Polygon.Polygon name 4 in
  let this := Polygon.set_m_area (side1 * side2) this in
  let this := Polygon.set_m_perimeter ((side1 + side2) * 2) this in
  {| base := this; m_side1 := side1; m_side2 := side2 |}.

Section Members.
Context {obj : Type}.
(** [override final], line 110. *)
Definition get_perimeter (this : t) : M obj float :=
  read (Polygon.m_perimeter (base this)).
Definition dtor (this : t) : M obj unit := Polygon.dtor (base this).
End Members.
End Rectangle.

(** Lines 114-134. *)
Module Square.
Record t := { base : Rectangle.t }.

Definition Square (name : string) (side : float) : t :=
  {| base := Rectangle.Rectangle name side side |}.

Section Members.
Context {obj : Type}.
Definition get_area (this : t) : M obj float :=
  print [OStr "The square of "; ODouble (Rectangle.m_side1 (base this));
         OStr "!"; OEndl];;
  read (Polygon.m_area (Rectangle.base (base this))).
Definition dtor (this : t) : M obj unit := Rectangle.dtor (base this).
End Members.
End Square.

(** Lines 137-169. *)
Module Trapezoid.
Record t := { base : Polygon.t;
              m_long_side : float; m_short_side : float; m_height : float;
              m_angled_side_length : loc }.

Section Members.
Context {obj : Type} `{Cmath}.

Definition Trapezoid (name : string) (long_side short_side height : float)
  : M obj t :=
  let this := Polygon.Polygon name 4 in
  let this := Polygon.set_m_area (height * (long_side + short_side) / 2) this in
  angled ← alloc (CDouble None);
  store_double angled (sqrt (pow ((long_side - short_side) / 2) 2
                             + pow height 2));;
  a ← load_double angled;
  let this := Polygon.set_m_perimeter (short_side + long_side + 2 * a) this in
  mret {| base := this;
          m_long_side := long_side; m_short_side := short_side;
          m_height := height; m_angled_side_length := angled |}.

(** Lines 161-165: the body, then the base class destructor. *)
Definition dtor (this : t) : M obj unit :=
  delete_double (m_angled_side_length this);;
  Polygon.dtor (base this).
End Members.
End Trapezoid.

(** The complete objects a program can create: one case per class that can
    be instantiated.  [Shape] cannot (protected constructor, two pure
    virtual members). *)
Inductive object :=
| OCircle (c : Circle.t)
| OPolygon (p : Polygon.t)
| ORectangle (r : Rectangle.t)
| OSquare (s : Square.t)
| OTrapezoid (t : Trapezoid.t).

Definition dynamic_type (this : object) : klass :=
  match this with
  | OCircle _ => KCircle
  | OPolygon _ => KPolygon
  | ORectangle _ => KRectangle
  | OSquare _ => KSquare
  | OTrapezoid _ => KTrapezoid
  end.

(** The direct base class named in each class head. *)
Definition parent (k : klass) : option klass :=
  match k with
  | KShape => None
  | KCircle => Some KShape
  | KPolygon => Some KShape
  | KRectangle => Some KPolygon
  | KSquare => Some KRectangle
  | KTrapezoid => Some KPolygon
  end.

(** [derives d b]: [b] is [d] or one of its bases, so that a [d*] converts
    to a [b*].  The walk up the [parent] links is bounded by the depth of
    the hierarchy. *)
Fixpoint derives_within (depth : nat) (d b : klass) : bool :=
  klass_eqb d b
  || match depth, parent d with
     | S depth', Some d' => derives_within depth' d' b
     | _, _ => false
     end.

Definition derives : klass -> klass -> bool := derives_within 3.

(** Base class subobjects. *)
Definition as_Rectangle (this : object) : option Rectangle.t :=
  match this with
  | ORectangle r => Some r
  | OSquare s => Some (Square.base s)
  | _ => None
  end.

Definition as_Polygon (this : object) : option Polygon.t :=
  match this with
  | OPolygon p => Some p
  | ORectangle r => Some (Rectangle.base r)
  | OSquare s => Some (Rectangle.base (Square.base s))
  | OTrapezoid t => Some (Trapezoid.base t)
  | OCircle _ => None
  end.

Definition as_Shape (this : object) : Shape.t :=
  match this with
  | OCircle c => Circle.base c
  | OPolygon p => Polygon.base p
  | ORectangle r => Polygon.base (Rectangle.base r)
  | OSquare s => Polygon.base (Rectangle.base (Square.base s))
  | OTrapezoid t => Polygon.base (Trapezoid.base t)
  end.

Definition Polygon_with_Shape (b : Shape.t) (p : Polygon.t) : Polygon.t :=
  {| Polygon.base := b; Polygon.m_sides := Polygon.m_sides p;
     Polygon.m_area := Polygon.m_area p;
     Polygon.m_perimeter := Polygon.m_perimeter p |}.

Definition Rectangle_with_Shape (b : Shape.t) (r : Rectangle.t) : Rectangle.t :=
  {| Rectangle.base := Polygon_with_Shape b (Rectangle.base r);
     Rectangle.m_side1 := Rectangle.m_side1 r;
     Rectangle.m_side2 := Rectangle.m_side2 r |}.

(** The object with its [Shape] subobject replaced. *)
Definition with_Shape (b : Shape.t) (this : object) : object :=
  match this with
  | OCircle c =>
      OCircle {| Circle.base := b; Circle.m_radius := Circle.m_radius c;
                 Circle.m_area := Circle.m_area c;
                 Circle.m_perimeter := Circle.m_perimeter c |}
  | OPolygon p => OPolygon (Polygon_with_Shape b p)
  | ORectangle r => ORectangle (Rectangle_with_Shape b r)
  | OSquare s => OSquare {| Square.base := Rectangle_with_Shape b (Square.base s) |}
  | OTrapezoid t =>
      OTrapezoid {| Trapezoid.base := Polygon_with_Shape b (Trapezoid.base t);
                    Trapezoid.m_long_side := Trapezoid.m_long_side t;
                    Trapezoid.m_short_side := Trapezoid.m_short_side t;
                    Trapezoid.m_height := Trapezoid.m_height t;
                    Trapezoid.m_angled_side_length :=
                      Trapezoid.m_angled_side_length t |}
  end.

(** [get_name] is not virtual: every class inherits [Shape::get_name], which
    refers to the name held in the [Shape] subobject. *)
Definition get_name : ref object string :=
  Ref (fun this => rd Shape.get_name (as_Shape this))
      (fun s this => with_Shape (wr Shape.get_name s (as_Shape this)) this).

(** Virtual calls: the final overrider of the dynamic type. *)
Definition get_area (this : object) : M object float :=
  match this with
  | OCircle c => Circle.get_area c
  | OPolygon p => Polygon.get_area p
  | ORectangle r => Polygon.get_area (Rectangle.base r)
  | OSquare s => Square.get_area s
  | OTrapezoid t => Polygon.get_area (Trapezoid.base t)
  end.

Definition get_perimeter (this : object) : M object float :=
  match this with
  | OCircle c => Circle.get_perimeter c
  | OPolygon p => Polygon.get_perimeter p
  | ORectangle r => Rectangle.get_perimeter r
  | OSquare s => Rectangle.get_perimeter (Square.base s)
  | OTrapezoid t => Polygon.get_perimeter (Trapezoid.base t)
  end.

(** The destructor of the most derived class. *)
Definition dtor (this : object) : M object unit :=
  match this with
  | OCircle c => Circle.dtor c
  | OPolygon p => Polygon.dtor p
  | ORectangle r => Rectangle.dtor r
  | OSquare s => Square.dtor s
  | OTrapezoid t => Trapezoid.dtor t
  end.

(** The destructor of class [k] run on the [k] subobject: what a call that
    is not dispatched selects. *)
Definition dtor_of (k : klass) (this : object) : M object unit :=
  match k, this with
  | KShape, _ => Shape.dtor (as_Shape this)
  | KCircle, OCircle c => Circle.dtor c
  | KPolygon, _ => from_option Polygon.dtor (fail BadCast) (as_Polygon this)
  | KRectangle, _ => from_option Rectangle.dtor (fail BadCast) (as_Rectangle this)
  | KSquare, OSquare s => Square.dtor s
  | KTrapezoid, OTrapezoid t => Trapezoid.dtor t
  | _, _ => fail BadCast
  end.

(** Whether the destructor of a class is declared [virtual]: lines 43, 65,
    87, 106, 120 and 161. *)
Definition virtual_dtor (k : klass) : bool :=
  match k with
  | KShape | KCircle | KPolygon | KRectangle | KSquare | KTrapezoid => true
  end.

(** [new T(args)]: storage, then the constructor. *)
Definition new_ (ctor : M object object) : M object loc :=
  p ← alloc CRaw;
  this ← ctor;
  store p (CObj this);;
  mret p.

Definition new_Circle (name : string) (radius : float) : M object loc :=
  new_ (mret (OCircle (Circle.Circle name radius))).

Definition new_Polygon (name : string) (sides : N) : M object loc :=
  new_ (mret (OPolygon (Polygon.Polygon name sides))).

Definition new_Rectangle (name : string) (side1 side2 : float) : M object loc :=
  new_ (mret (ORectangle (Rectangle.Rectangle name side1 side2))).

Definition new_Square (name : string) (side : float) : M object loc :=
  new_ (mret (OSquare (Square.Square name side))).

Definition new_Trapezoid `{Cmath} (name : string)
    (long_side short_side height : float) : M object loc :=
  new_ (OTrapezoid <$> Trapezoid.Trapezoid name long_side short_side height).

(** [delete p] where [p] has static type [static*]: a virtual destructor
    is dispatched on the dynamic type, one that is not runs as declared
    for [static]; then the storage is released. *)
Definition delete_ (static : klass) (p : loc) : M object unit :=
  this ← load_obj p;
  (if derives (dynamic_type this) static then mret tt else fail BadCast);;
  (if virtual_dtor static then dtor this else dtor_of static this);;
  dealloc p.

(** [p->f()]. *)
Definition arrow {A} (p : loc) (f : object -> M object A) : M object A :=
  load_obj p ≫= f.

(** [p->get_name() = s]. *)
Definition assign_name (p : loc) (s : string) : M object unit :=
  this ← load_obj p;
  store p (CObj (wr get_name s this)).

(** The constructor call for given arguments. *)
Definition construct `{Cmath} (args : ctor_args) : M object object :=
  match args with
  | MkCircle name radius => mret (OCircle (Circle.Circle name radius))
  | MkPolygon name sides => mret (OPolygon (Polygon.Polygon name sides))
  | MkRectangle name side1 side2 =>
      mret (ORectangle (Rectangle.Rectangle name side1 side2))
  | MkSquare name side => mret (OSquare (Square.Square name side))
  | MkTrapezoid name long_side short_side height =>
      OTrapezoid <$> Trapezoid.Trapezoid name long_side short_side height
  end.

Definition call (g : getter) : object -> M object float :=
  match g with
  | GetArea => get_area
  | GetPerimeter => get_perimeter
  end.

(** The deleter that [make_shared<T>] records: it destroys the object as
    the [T] it was made as, which is its dynamic type, and releases it. *)
Definition destroy (p : loc) : M object unit :=
  this ← load_obj p;
  dtor this;;
  dealloc p.

(** The destructor of a [shared_ptr], and the one of a [unique_ptr<T>],
    which is [delete] on a [T*]. *)
Definition shared_ptr_dtor : loc -> M object unit := sp_release destroy.
Definition unique_ptr_dtor (T : klass) (p : loc) : M object unit := delete_ T p.

(** [make_unique<T>(args)] is [unique_ptr<T>(new T(args))]. *)
Definition make_unique (ctor : M object object) : M object loc := new_ ctor.

(** [x->f()] for a [shared_ptr] [x]. *)
Definition sp_arrow {A} (x : loc) (f : object -> M object A) : M object A :=
  p ← sp_get x;
  arrow p f.

(** The two statement shapes of [main],
    [cout<<"The area of "<<x.get_name()<<" is: "<<x.get_area()<<endl;]
    and its twin for the perimeter, where [x.] is a reference ([arrow s])
    or a [shared_ptr] with [->] ([sp_arrow sp]).  The operands are
    evaluated from left to right (the order is unspecified before C++17;
    the free store does not depend on it). *)
Definition area_line (x : forall A, (object -> M object A) -> M object A)
  : M object unit :=
  print [OStr "The area of "];;
  name ← x _ (λ this, mret (rd get_name this));
  print [OStr name; OStr " is: "];;
  a ← x _ get_area;
  print [ODouble a; OEndl].

Definition perimeter_line (x : forall A, (object -> M object A) -> M object A)
  : M object unit :=
  print [OStr "The perimeter of "];;
  name ← x _ (λ this, mret (rd get_name this));
  print [OStr name; OStr " is: "];;
  a ← x _ get_perimeter;
  print [ODouble a; OEndl].

(** Lines 171-254.  The locals are destroyed at the end in the reverse
    order of their declarations; the reference [s] owns nothing. *)
Definition main `{Cmath} : M object Z :=
  c ← make_shared (mret (OCircle (Circle.Circle "the hole" 2)));
  s ← sp_get c;
  print [OStr "Using Shape reference to Circle object: "; OEndl];;
  area_line (λ A, arrow s);;
  perimeter_line (λ A, arrow s);;
  print [OEndl];;
  r1 ← make_unique (mret (ORectangle (Rectangle.Rectangle "the table" 3 4)));
  r ← make_shared (mret (ORectangle (Rectangle.Rectangle "the table" 4 5)));
  s1 ← sp_copy r;
  print [OStr "Using Shape pointer to Rectangle object: "; OEndl];;
  area_line (λ A, sp_arrow s1);;
  perimeter_line (λ A, sp_arrow s1);;
  print [OEndl];;
  q ← make_shared (mret (OSquare (Square.Square "the box" 1)));
  p ← sp_copy q;
  print [OStr "Calling from Square object: "; OEndl];;
  area_line (λ A, sp_arrow q);;
  perimeter_line (λ A, sp_arrow q);;
  print [OEndl];;
  print [OStr "Calling from Polygon pointer to Square object: "; OEndl];;
  area_line (λ A, sp_arrow p);;
  perimeter_line (λ A, sp_arrow p);;
  t ← make_shared (OTrapezoid <$> Trapezoid.Trapezoid "the stand" 4 2 1);
  p' ← sp_copy t;
  shared_ptr_dtor p;;
  let p := p' in
  print [OStr "Calling from Polygon pointer to Trapezoid object: "; OEndl];;
  area_line (λ A, sp_arrow p);;
  perimeter_line (λ A, sp_arrow p);;
  print [OEndl];;
  shared_ptr_dtor t;;
  shared_ptr_dtor p;;
  shared_ptr_dtor q;;
  shared_ptr_dtor s1;;
  shared_ptr_dtor r;;
  unique_ptr_dtor KRectangle r1;;
  shared_ptr_dtor c;;
  mret 0%Z.
End Shape_RAII.

(** ** The real number a double denotes *)

Definition SF2R (x : spec_float) : R :=
  match x with
  | S754_finite s m e =>
      ((if s then -1 else 1) * IZR (Z.pos m) * powerRZ 2 e)%R
  | _ => 0%R
  end.

Definition F2R (x : float) : R := SF2R (Prim2SF x).

(** The constant that [<math.h>] offers for pi, [M_PI], as a double. *)
Definition M_PI : float := 3.14159265358979323846%float.

(** * Properties *)

(** ** Binary64 arithmetic *)

Lemma SFmul_comm prec emax x y : SFmul prec emax x y = SFmul prec emax y x.
Proof.
  destruct x as [sx|sx| |sx mx ex], y as [sy|sy| |sy my ey]; cbn;
    try reflexivity; rewrite ?(xorb_comm sx sy); try reflexivity.
  now rewrite (Pos.mul_comm mx my), (Z.add_comm ex ey).
Qed.

Lemma float_mul_comm (x y : float) : (x * y = y * x)%float.
Proof. apply Prim2SF_inj. rewrite !mul_spec. apply SFmul_comm. Qed.

Lemma float_neq (x y : float) : Prim2SF x <> Prim2SF y -> x <> y.
Proof. intros Hne ->. now apply Hne. Qed.

Lemma powerRZ_2_neg p : powerRZ 2 (Z.neg p) = (/ IZR (2 ^ Z.pos p))%R.
Proof. cbn [powerRZ]. rewrite pow_IZR. now rewrite positive_nat_Z. Qed.

(** Six terms of the series for [atan (/3)] and [atan (/7)] put the real
    number pi above 3.14159. *)
Lemma PI_lower_bound : (314159 / 100000 < PI)%R.
Proof.
  pose proof (PI_2_3_7_ineq 2) as [Hlow _].
  cbn [Nat.mul Nat.add] in Hlow.
  unfold sum_f_R0, tg_alt, PI_2_3_7_tg, Ratan_seq in Hlow.
  cbn [Nat.mul Nat.add Rpow_def.pow] in Hlow.
  repeat rewrite ?S_INR, ?INR_0 in Hlow.
  simpl in Hlow.
  lra.
Qed.

(** The double that the literal [3.14159] denotes lies just below the
    decimal 3.14159. *)
Lemma F2R_PI_const :
  F2R Shape_cc.PI = (7074231776675438 / 2251799813685248)%R.
Proof.
  unfold F2R.
  replace (Prim2SF Shape_cc.PI)
    with (S754_finite false 7074231776675438 (-51)) by (vm_compute; reflexivity).
  unfold SF2R. rewrite powerRZ_2_neg.
  let z := eval vm_compute in (2 ^ 51)%Z in change (2 ^ 51)%Z with z.
  lra.
Qed.

Lemma F2R_one : F2R 1 = 1%R.
Proof.
  unfold F2R.
  replace (Prim2SF 1)
    with (S754_finite false 4503599627370496 (-52)) by (vm_compute; reflexivity).
  unfold SF2R. rewrite powerRZ_2_neg.
  let z := eval vm_compute in (2 ^ 52)%Z in change (2 ^ 52)%Z with z.
  lra.
Qed.

(** ** Running the monad *)

Section Run.
Context {obj : Type}.
Implicit Types w : world obj.

Lemma run_bind {A B} (m : M obj A) (k : A -> M obj B) w :
  (m ≫= k) w = match m w with
               | Ok a w' => k a w'
               | Fault f => Fault f
               end.
Proof. reflexivity. Qed.

Lemma run_fmap {A B} (f : A -> B) (m : M obj A) w :
  (f <$> m) w = match m w with
                | Ok a w' => Ok (f a) w'
                | Fault e => Fault e
                end.
Proof. reflexivity. Qed.

Lemma run_ret {A} (a : A) w : (mret a : M obj A) w = Ok a w.
Proof. reflexivity. Qed.

Lemma world_eta w : World (heap w) (cout w) = w.
Proof. now destruct w. Qed.

Lemma Ok_world {A} (a : A) (h : gmap loc (cell obj)) out w :
  h = heap w -> out = cout w -> Ok a (World h out) = Ok a w.
Proof. intros -> ->. now rewrite world_eta. Qed.

Lemma run_read (d : float) w : read (obj:=obj) (Some d) w = Ok d w.
Proof. reflexivity. Qed.

Lemma fresh_heap w : heap w !! fresh (dom (heap w)) = None.
Proof. apply not_elem_of_dom, is_fresh. Qed.

Lemma run_alloc (c : cell obj) w :
  alloc c w = Ok (fresh (dom (heap w)))
                 (World (<[fresh (dom (heap w)) := c]> (heap w)) (cout w)).
Proof. reflexivity. Qed.

Lemma run_load l (c : cell obj) w : heap w !! l = Some c -> load l w = Ok c w.
Proof. intros Hl. unfold load. now rewrite Hl. Qed.

Lemma run_store l (c c0 : cell obj) w :
  heap w !! l = Some c0 ->
  store l c w = Ok tt (World (<[l := c]> (heap w)) (cout w)).
Proof. intros Hl. unfold store. now rewrite Hl. Qed.

Lemma run_dealloc l (c : cell obj) w :
  heap w !! l = Some c ->
  dealloc l w = Ok tt (World (delete l (heap w)) (cout w)).
Proof. intros Hl. unfold dealloc. now rewrite Hl. Qed.

Lemma run_load_obj l (o : obj) w :
  heap w !! l = Some (CObj o) -> load_obj l w = Ok o w.
Proof. intros Hl. unfold load_obj, bind. now rewrite (run_load _ _ _ Hl). Qed.

Lemma run_load_double l (d : float) w :
  heap w !! l = Some (CDouble (Some d)) -> load_double l w = Ok d w.
Proof. intros Hl. unfold load_double, bind. now rewrite (run_load _ _ _ Hl). Qed.

Lemma run_store_double l (d : float) d0 w :
  heap w !! l = Some (CDouble d0) ->
  store_double l d w = Ok tt (World (<[l := CDouble (Some d)]> (heap w)) (cout w)).
Proof.
  intros Hl. unfold store_double, bind.
  rewrite (run_load _ _ _ Hl). now apply run_store with (c0 := CDouble d0).
Qed.

Lemma run_delete_double l d w :
  heap w !! l = Some (CDouble d) ->
  delete_double l w = Ok tt (World (delete l (heap w)) (cout w)).
Proof.
  intros Hl. unfold delete_double, bind.
  rewrite (run_load _ _ _ Hl). now apply run_dealloc with (c := CDouble d).
Qed.

(** Two blocks obtained and released leave the free store as it was. *)
Lemma heap_restored (h : gmap loc (cell obj)) p a c1 c2 c3 :
  h !! p = None -> h !! a = None -> a <> p ->
  delete p (delete a (<[p := c1]> (<[a := c2]> (<[p := c3]> h)))) = h.
Proof.
  intros Hp Ha Hne. apply map_eq. intros i.
  destruct (decide (i = p)) as [->|]; [now rewrite lookup_delete_eq|].
  rewrite lookup_delete_ne by done.
  destruct (decide (i = a)) as [->|]; [now rewrite lookup_delete_eq|].
  rewrite lookup_delete_ne by done.
  now rewrite !lookup_insert_ne by done.
Qed.

(** The location after the first fresh one is another, and also unused. *)
Lemma second_fresh (h : gmap loc (cell obj)) (c : cell obj) :
  let p := fresh (dom h) in
  let a := fresh (dom (<[p := c]> h)) in
  h !! p = None /\ h !! a = None /\ a <> p.
Proof.
  intros p a.
  assert (Ha : <[p := c]> h !! a = None) by apply not_elem_of_dom, is_fresh.
  split; [apply not_elem_of_dom, is_fresh|].
  apply lookup_insert_None in Ha as [Ha Hne]. split; [exact Ha|congruence].
Qed.

(** [new T(args)] for a constructor that succeeds and leaves the storage
    of the new object alone. *)
Lemma run_new (ctor : M obj obj) (o : obj) w h1 out :
  let p := fresh (dom (heap w)) in
  ctor (World (<[p := CRaw]> (heap w)) (cout w)) = Ok o (World h1 out) ->
  h1 !! p = Some CRaw ->
  (bind (alloc CRaw) (fun p =>
   bind ctor (fun this =>
   bind (store p (CObj this)) (fun _ => ret p)))) w
  = Ok p (World (<[p := CObj o]> h1) out).
Proof.
  intros p Hctor Hp. unfold bind at 1. rewrite run_alloc. fold p.
  unfold bind at 1. rewrite Hctor.
  unfold bind. now rewrite (run_store _ _ CRaw) by exact Hp.
Qed.

(** [make_shared<T>(args)], likewise, with the control block after the
    object. *)
Lemma run_make_shared (ctor : M obj obj) (o : obj) w h1 out :
  let p := fresh (dom (heap w)) in
  ctor (World (<[p := CRaw]> (heap w)) (cout w)) = Ok o (World h1 out) ->
  h1 !! p = Some CRaw ->
  make_shared ctor w
  = Ok (fresh (dom (<[p := CObj o]> h1)))
       (World (<[fresh (dom (<[p := CObj o]> h1)) := CCtrl 1 p]>
                 (<[p := CObj o]> h1)) out).
Proof.
  intros p Hctor Hp. unfold make_shared.
  unfold bind at 1. rewrite run_alloc. fold p.
  unfold bind at 1. rewrite Hctor.
  unfold bind. now rewrite (run_store _ _ CRaw) by exact Hp.
Qed.

(** [n] copies of a [shared_ptr] add [n] to the use count. *)
Lemma run_sp_copies (n k : nat) (c p : loc) w :
  heap w !! c = Some (CCtrl k p) ->
  iterate n (sp_copy c) w
  = Ok (replicate n c) (World (<[c := CCtrl (n + k) p]> (heap w)) (cout w)).
Proof.
  revert k w. induction n as [|n IH]; intros k w Hc.
  - cbn. now rewrite insert_id, world_eta.
  - cbn [iterate replicate]. rewrite run_bind. unfold sp_copy at 1.
    unfold bind at 1. rewrite (run_load _ _ _ Hc).
    unfold bind at 1. rewrite (run_store _ _ _ _ Hc).
    unfold ret at 1. rewrite run_bind.
    rewrite (IH (S k)) by apply lookup_insert_eq.
    cbn [heap cout]. rewrite insert_insert_eq, run_ret.
    now replace (n + S k) with (S n + k) by lia.
Qed.

(** [n] of [n + 1 + k] owners going away take [n] off the use count and
    destroy nothing. *)
Lemma run_sp_releases (destroy : loc -> M obj unit) (n k : nat) (c p : loc) w :
  heap w !! c = Some (CCtrl (n + S k) p) ->
  iterate n (sp_release destroy c) w
  = Ok (replicate n tt) (World (<[c := CCtrl (S k) p]> (heap w)) (cout w)).
Proof.
  revert w. induction n as [|n IH]; intros w Hc.
  - cbn. now rewrite insert_id, world_eta.
  - cbn [iterate replicate]. rewrite run_bind. unfold sp_release at 1.
    unfold bind at 1. rewrite (run_load _ _ _ Hc).
    replace (S n + S k) with (S (S (n + k))) by lia.
    rewrite (run_store _ _ _ _ Hc). rewrite run_bind.
    rewrite IH by (cbn [heap]; rewrite lookup_insert_eq; f_equal; f_equal; lia).
    cbn [heap cout]. now rewrite insert_insert_eq, run_ret.
Qed.

(** The last owner going away destroys the object and the control block. *)
Lemma run_sp_last_release (destroy : loc -> M obj unit) (c p : loc) w w' ctrl :
  heap w !! c = Some (CCtrl 1 p) ->
  destroy p w = Ok tt w' ->
  heap w' !! c = Some ctrl ->
  sp_release destroy c w = Ok tt (World (delete c (heap w')) (cout w')).
Proof.
  intros Hc Hd Hc'. unfold sp_release.
  unfold bind at 1. rewrite (run_load _ _ _ Hc).
  unfold bind. rewrite Hd. now apply run_dealloc with (c := ctrl).
Qed.
End Run.

(** ** Shape.cc: areas and perimeters *)

Section Measurements.
Import Shape_cc.
Context `{Cmath}.
#[local] Open Scope float_scope.
Implicit Types w : world object.

(** C4.  A Rectangle constructed with sides [a] and [b] returns [a * b]
    from [get_area()] and [2 * (a + b)] from [get_perimeter()], and the
    calls change nothing. *)
Theorem rectangle_area_perimeter (name : string) (a b : float) w :
  let r := ORectangle (Rectangle.Rectangle name a b) in
  get_area r w = Ok (a * b) w /\ get_perimeter r w = Ok (2 * (a + b)) w.
Proof.
  cbn. split; [reflexivity|].
  unfold Rectangle.get_perimeter. cbn.
  now rewrite (float_mul_comm 2).
Qed.

(** The line that [Square::get_area] streams to [cout], line 126. *)
Lemma square_get_area_run (sq : Square.t) (a : float) w :
  Polygon.m_area (Rectangle.base (Square.base sq)) = Some a ->
  get_area (OSquare sq) w =
    Ok a (World (heap w)
                (cout w ++ [OStr "The square of ";
                            ODouble (Rectangle.m_side1 (Square.base sq));
                            OStr "!"; OEndl])).
Proof.
  intros Ha. cbn. unfold Square.get_area.
  rewrite run_bind. cbn. now rewrite Ha.
Qed.

(** C5.  A Square of side [s] returns the perimeter of a Rectangle with
    sides [(s, s)]; [get_area()] returns [s * s] and streams the line
    "The square of <s>!" to [cout]; [n] calls stream it [n] times. *)
Theorem square_perimeter_area_diagnostic (name : string) (s : float) w :
  let sq := OSquare (Square.Square name s) in
  let line := [OStr "The square of "; ODouble s; OStr "!"; OEndl] in
  get_perimeter sq w = get_perimeter (ORectangle (Rectangle.Rectangle name s s)) w
  /\ get_area sq w = Ok (s * s) (World (heap w) (cout w ++ line))
  /\ forall n, iterate n (get_area sq) w
               = Ok (replicate n (s * s))
                    (World (heap w) (cout w ++ mjoin (replicate n line))).
Proof.
  cbn zeta. split; [reflexivity|]. split.
  - now apply square_get_area_run.
  - intros n. revert w. induction n as [|n IH]; intros w.
    + cbn. now rewrite app_nil_r, world_eta.
    + cbn [iterate replicate]. rewrite run_bind.
      rewrite (square_get_area_run _ (s * s)) by reflexivity.
      rewrite run_bind, IH. cbn [heap cout Square.base Rectangle.m_side1
                                    Square.Square Rectangle.Rectangle].
      rewrite run_ret. f_equal. f_equal.
      rewrite <- app_assoc. reflexivity.
Qed.

(** The amended C3.  A Circle of radius [r], whatever the sign of [r],
    returns [r * r * PI] from [get_area()] and [2 * r * PI] from
    [get_perimeter()], where [PI] is the constant of line 23 and the
    products are those of binary64. *)
Theorem circle_area_perimeter_PI (name : string) (r : float) w :
  let c := OCircle (Circle.Circle name r) in
  get_area c w = Ok (r * r * PI) w /\ get_perimeter c w = Ok (2 * r * PI) w.
Proof.
  cbn. unfold Circle.get_area, Circle.get_perimeter. cbn.
  now rewrite (float_mul_comm r 2).
Qed.

(** C3 fails at radius 1: the area returned is the double 3.14159, which
    as a real number differs from 1 * 1 * pi, and as a double differs
    from the product with [M_PI]; likewise the perimeter. *)
Lemma circle_radius_1_is_not_pi :
  let c := OCircle (Circle.Circle "c" 1) in
  let w := World ∅ [] in
  get_area c w = Ok 3.14159 w
  /\ F2R 3.14159 <> (F2R 1 * F2R 1 * Rtrigo1.PI)%R
  /\ 3.14159 <> 1 * 1 * M_PI
  /\ get_perimeter c w = Ok 6.28318 w
  /\ F2R 6.28318 <> (2 * F2R 1 * Rtrigo1.PI)%R
  /\ 6.28318 <> 2 * 1 * M_PI.
Proof.
  cbn zeta. pose proof PI_lower_bound as Hpi.
  pose proof F2R_PI_const as Hc. unfold PI in Hc.
  assert (H2 : F2R 6.28318 = (2 * F2R 3.14159)%R).
  { rewrite Hc. unfold F2R.
    replace (Prim2SF 6.28318)
      with (S754_finite false 7074231776675438 (-50)) by (vm_compute; reflexivity).
    unfold SF2R. rewrite powerRZ_2_neg.
    let z := eval vm_compute in (2 ^ 50)%Z in change (2 ^ 50)%Z with z.
    lra. }
  repeat split.
  - rewrite F2R_one, Hc. lra.
  - apply float_neq. vm_compute. discriminate.
  - rewrite F2R_one, H2, Hc. lra.
  - apply float_neq. vm_compute. discriminate.
Qed.

(** C9.  The area and the perimeter of a Circle are computed with the
    literal 3.14159: [get_area()] returns [r * r * 3.14159] and
    [get_perimeter()] returns [2 * r * 3.14159]; at radius 1 the area is
    the double 3.14159, which lies below the real number pi. *)
Theorem circle_uses_literal_3_14159 (name : string) (r : float) w :
  get_area (OCircle (Circle.Circle name r)) w = Ok (r * r * 3.14159) w
  /\ get_perimeter (OCircle (Circle.Circle name r)) w = Ok (2 * r * 3.14159) w
  /\ get_area (OCircle (Circle.Circle name 1)) w = Ok 3.14159 w
  /\ (F2R 3.14159 < Rtrigo1.PI)%R.
Proof.
  split; [|split; [|split]].
  - reflexivity.
  - cbn. unfold Circle.get_perimeter. cbn.
    now rewrite (float_mul_comm r 2).
  - reflexivity.
  - pose proof PI_lower_bound. pose proof F2R_PI_const as Hc.
    unfold PI in Hc. rewrite Hc. lra.
Qed.

(** The constructor of Trapezoid, lines 140-152, run in any world: one new
    block for the angled side, and the object. *)
Lemma Trapezoid_run (name : string) (l s h : float) w :
  let a := fresh (dom (heap w)) in
  let angled := sqrt (pow ((l - s) / 2) 2 + pow h 2) in
  Trapezoid.Trapezoid name l s h w
  = Ok {| Trapezoid.base :=
            {| Polygon.base := Shape.Shape name; Polygon.m_sides := 4;
               Polygon.m_area := Some (h * (l + s) / 2);
               Polygon.m_perimeter := Some (s + l + 2 * angled) |};
          Trapezoid.m_long_side := l; Trapezoid.m_short_side := s;
          Trapezoid.m_height := h; Trapezoid.m_angled_side_length := a |}
       (World (<[a := CDouble (Some angled)]> (heap w)) (cout w)).
Proof.
  intros a angled. unfold Trapezoid.Trapezoid.
  rewrite run_bind, run_alloc. fold a.
  rewrite run_bind, (run_store_double a _ None) by apply lookup_insert_eq.
  cbn [heap cout]. rewrite insert_insert_eq.
  rewrite run_bind, (run_load_double a angled) by apply lookup_insert_eq.
  reflexivity.
Qed.

(** C2, as amended.  With a [pow] of the accuracy the C library documents,
    a Trapezoid constructed with long side [l], short side [s] and height
    [h] holds [sqrt (pow ((l - s) / 2) 2 + pow h 2)] in the block of its
    angled side, where each [pow x 2] is the product [x * x] or a double
    next to it; it returns [h * (l + s) / 2] from [get_area()] and
    [s + l + 2 * angled] from [get_perimeter()].  The Trapezoid (4, 2, 1)
    has the angled side [sqrt 2], the area 3 and the perimeter
    [6 + 2 * sqrt 2]. *)
Theorem trapezoid_measurements :
  within_one_ulp ->
  (forall (name : string) (l s h : float) w,
      exists t w',
        Trapezoid.Trapezoid name l s h w = Ok t w'
        /\ let d := (l - s) / 2 in
           let angled := sqrt (pow d 2 + pow h 2) in
           neighbours (pow d 2) (d * d)
           /\ neighbours (pow h 2) (h * h)
           /\ load_double (Trapezoid.m_angled_side_length t) w' = Ok angled w'
           /\ get_area (OTrapezoid t) w' = Ok (h * (l + s) / 2) w'
           /\ get_perimeter (OTrapezoid t) w' = Ok (s + l + 2 * angled) w')
  /\ (forall (name : string) w,
      exists t w',
        Trapezoid.Trapezoid name 4 2 1 w = Ok t w'
        /\ load_double (Trapezoid.m_angled_side_length t) w' = Ok (sqrt 2) w'
        /\ get_area (OTrapezoid t) w' = Ok 3 w'
        /\ get_perimeter (OTrapezoid t) w' = Ok (6 + 2 * sqrt 2) w').
Proof.
  intros [Hulp Hone]. split.
  - intros name l s h w. eexists _, _. split; [apply Trapezoid_run|].
    cbn zeta. split; [apply Hulp|]. split; [apply Hulp|]. split; [|split].
    + apply run_load_double. cbn [heap Trapezoid.m_angled_side_length].
      apply lookup_insert_eq.
    + reflexivity.
    + reflexivity.
  - intros name w. eexists _, _. split; [apply Trapezoid_run|].
    replace ((4 - 2) / 2) with 1 by reflexivity.
    rewrite Hone.
    split; [|split].
    + apply run_load_double. cbn [heap Trapezoid.m_angled_side_length].
      apply lookup_insert_eq.
    + reflexivity.
    + reflexivity.
Qed.

(** Every constructor call returns, with the name it was given in the
    [Shape] subobject, the text on [cout] as it was, and the free store
    grown by at most the block of a Trapezoid's angled side. *)
Lemma construct_run (args : ctor_args) w :
  exists o w',
    construct args w = Ok o w'
    /\ rd get_name o = name_arg args
    /\ cout w' = cout w
    /\ (forall l, l <> fresh (dom (heap w)) -> heap w' !! l = heap w !! l)
    /\ (dynamic_type o <> KPolygon -> determinate o = true).
Proof.
  destruct args as [name r|name n|name a b|name a|name l s h];
    try (eexists _, w; repeat split; (reflexivity || (cbn; congruence))).
  eexists _, _. cbn [construct]. rewrite run_fmap, Trapezoid_run.
  repeat split. intros l0 Hl0. cbn [heap]. now rewrite lookup_insert_ne.
Qed.


(** Zero and negative lengths go through the same arithmetic. *)
Example circle_of_negative_radius w :
  get_area (OCircle (Circle.Circle "c" (-1))) w = Ok 3.14159 w
  /\ get_perimeter (OCircle (Circle.Circle "c" (-1))) w = Ok (-6.28318) w
  /\ get_area (ORectangle (Rectangle.Rectangle "r" (-3) 0)) w = Ok (-0) w
  /\ get_perimeter (ORectangle (Rectangle.Rectangle "r" (-3) 0)) w = Ok (-6) w.
Proof. repeat split. Qed.
End Measurements.

(** C2 fails at long side 4, short side 2 and height 96.03 where [pow] is
    glibc's: [pow(96.03, 2)] is the double above the product
    [96.03 * 96.03], and the angled side the constructor stores,
    0x1.80240d3096b56p+6, is the double above
    [sqrt (1 * 1 + 96.03 * 96.03)]. *)
Lemma trapezoid_height_96_03_is_not_the_products :
  let w := World ∅ [] in
  let d := ((4 - 2) / 2)%float in
  let h := 96.03%float in
  @pow pow_glibc_96_03 d 2 = (d * d)%float
  /\ @pow pow_glibc_96_03 h 2 = 0x1.202e1652bd3c4p+13%float
  /\ (h * h = 0x1.202e1652bd3c3p+13)%float
  /\ exists t w',
       @Shape_cc.Trapezoid.Trapezoid Shape_cc.object pow_glibc_96_03
         "the stand" 4 2 h w
       = Ok t w'
       /\ load_double (Shape_cc.Trapezoid.m_angled_side_length t) w'
          = Ok 0x1.80240d3096b56p+6%float w'
       /\ (sqrt (d * d + h * h) = 0x1.80240d3096b55p+6)%float
       /\ load_double (Shape_cc.Trapezoid.m_angled_side_length t) w'
          <> Ok (sqrt (d * d + h * h))%float w'.
Proof.
  cbn zeta. split; [reflexivity|]. split; [reflexivity|].
  split; [reflexivity|].
  eexists _, _. split; [apply (@Trapezoid_run pow_glibc_96_03)|].
  assert (Hload : forall x : float,
             load_double (obj := Shape_cc.object) 1%positive
               (World (<[1%positive := CDouble (Some x)]> ∅) [])
             = Ok x (World (<[1%positive := CDouble (Some x)]> ∅) [])).
  { intros x. apply run_load_double. apply lookup_insert_eq. }
  cbn [Shape_cc.Trapezoid.m_angled_side_length heap cout].
  replace (fresh (dom (∅ : gmap loc (cell Shape_cc.object)))) with 1%positive
    by (vm_compute; reflexivity).
  rewrite Hload.
  split; [reflexivity|]. split; [reflexivity|].
  intros Heq.
  apply (f_equal (fun r => match r with Ok a _ => a | Fault _ => nan end))
    in Heq.
  revert Heq. apply float_neq. vm_compute. discriminate.
Qed.

(** ** Shape.cc: names and the frame of the accessors *)

Section Accessors.
Import Shape_cc.
Context `{Cmath}.
#[local] Open Scope float_scope.
#[local] Open Scope list_scope.
Implicit Types w : world object.

Lemma run_arrow {A} (p : loc) (f : object -> M object A) (o : object) w :
  heap w !! p = Some (CObj o) -> arrow p f w = f o w.
Proof.
  intros Hp. unfold arrow. now rewrite run_bind, (run_load_obj _ _ _ Hp).
Qed.

Lemma rd_wr_get_name (s : string) (o : object) :
  rd get_name (wr get_name s o) = s.
Proof. now destruct o. Qed.

(** An accessor called on an object with both measurements assigned
    returns, leaves the free store alone and can only append to [cout];
    the value does not depend on the world. *)
Lemma call_run (o : object) :
  determinate o = true ->
  exists area perimeter : float,
    forall (g : getter) w,
    exists out,
      call g o w
      = Ok (match g with GetArea => area | GetPerimeter => perimeter end)
           (World (heap w) (cout w ++ out))
      /\ (dynamic_type o <> KSquare \/ g <> GetArea -> out = []).
Proof.
  intros Hdet.
  assert (Hpoly : forall q, as_Polygon o = Some q ->
            exists a b, Polygon.m_area q = Some a /\ Polygon.m_perimeter q = Some b).
  { intros q Hq. unfold determinate in Hdet. rewrite Hq in Hdet.
    apply andb_prop in Hdet as [Ha Hb].
    apply bool_decide_eq_true in Ha as [a Ha], Hb as [b Hb]. eauto. }
  clear Hdet.
  destruct o as [c|q|r|sq|t].
  - exists (Circle.m_area c), (Circle.m_perimeter c).
    intros [] w; exists []; rewrite app_nil_r, world_eta; now split.
  - destruct (Hpoly _ eq_refl) as (a & b & Ha & Hb). exists a, b.
    intros [] w; exists []; rewrite app_nil_r, world_eta; cbn;
      unfold Polygon.get_area, Polygon.get_perimeter; rewrite ?Ha, ?Hb; now split.
  - destruct (Hpoly _ eq_refl) as (a & b & Ha & Hb). exists a, b.
    intros [] w; exists []; rewrite app_nil_r, world_eta; cbn;
      unfold Polygon.get_area, Rectangle.get_perimeter; rewrite ?Ha, ?Hb; now split.
  - destruct (Hpoly _ eq_refl) as (a & b & Ha & Hb). exists a, b.
    intros [] w.
    + eexists. split; [now apply square_get_area_run|].
      intros [Hne|Hne]; now contradict Hne.
    + exists []. rewrite app_nil_r, world_eta. cbn.
      unfold Rectangle.get_perimeter. cbn in Hb. rewrite Hb. now split.
  - destruct (Hpoly _ eq_refl) as (a & b & Ha & Hb). exists a, b.
    intros [] w; exists []; rewrite app_nil_r, world_eta; cbn;
      unfold Polygon.get_area, Polygon.get_perimeter; rewrite ?Ha, ?Hb; now split.
Qed.

(** C7.  On an instance whose measurements were assigned, any sequence of
    [get_area()] and [get_perimeter()] calls returns one and the same area
    and one and the same perimeter throughout, and leaves the free store,
    hence every attribute of the instance, as it was; [cout] is unchanged
    too unless the instance is a Square and [get_area()] is among the
    calls, in which case text is appended and nothing else happens. *)
Theorem accessors_change_nothing (p : loc) (o : object) w
    (Hp : heap w !! p = Some (CObj o)) (Hdet : determinate o = true) :
  exists area perimeter : float,
    forall gs : list getter,
    exists out,
      call_all p gs w
      = Ok (map (fun g => match g with GetArea => area | GetPerimeter => perimeter end) gs)
           (World (heap w) (cout w ++ out))
      /\ (dynamic_type o <> KSquare \/ GetArea ∉ gs -> out = []).
Proof.
  destruct (call_run o Hdet) as (area & perimeter & Hcall).
  exists area, perimeter. intros gs. revert w Hp.
  induction gs as [|g gs IH]; intros w Hp.
  - exists []. cbn. rewrite app_nil_r, world_eta. now split.
  - destruct (Hcall g w) as (out1 & Hg & Hout1).
    destruct (IH (World (heap w) (cout w ++ out1)) Hp) as (out2 & Hgs & Hout2).
    exists (out1 ++ out2). split.
    + cbn [call_all map]. rewrite run_bind, (run_arrow _ _ _ _ Hp), Hg.
      rewrite run_bind, Hgs. cbn [heap cout]. now rewrite app_assoc.
    + intros Hquiet. rewrite Hout1, Hout2; [reflexivity| |].
      * destruct Hquiet as [Hne|Hnotin]; [now left|right].
        now apply not_elem_of_cons in Hnotin.
      * destruct Hquiet as [Hne|Hnotin]; [now left|right].
        now apply not_elem_of_cons in Hnotin.
Qed.

(** C6.  For every class that can be constructed, [get_name()] refers to
    the string passed to the constructor; on an object in the free store
    it returns that string until the caller assigns through the reference,
    after which it returns the string assigned; the accessors
    [get_area()] and [get_perimeter()] return and do not alter it (on an
    object of class Polygon itself, whose measurements no constructor
    assigned, they have no defined result). *)
Theorem get_name_is_construction_name (args : ctor_args) w :
  exists p o w1,
    new_ (construct args) w = Ok p w1
    /\ heap w1 !! p = Some (CObj o)
    /\ rd get_name o = name_arg args
    /\ arrow p (fun this => mret (rd get_name this)) w1 = Ok (name_arg args) w1
    /\ (forall g,
          dynamic_type o = KPolygon
          \/ exists a w2,
               arrow p (call g) w1 = Ok a w2
               /\ arrow p (fun this => mret (rd get_name this)) w2
                  = Ok (name_arg args) w2)
    /\ (forall s : string,
          observe ((assign_name p s;;
                    arrow p (fun this => mret (rd get_name this))) w1)
          = inr (s, cout w1)).
Proof.
  set (p := fresh (dom (heap w))).
  destruct (construct_run args (World (<[p := CRaw]> (heap w)) (cout w)))
    as (o & w' & Hc & Hname & Hcout & Hheap & Hdet).
  assert (Hraw : heap w' !! p = Some CRaw).
  { rewrite Hheap; cbn [heap]; [apply lookup_insert_eq|].
    intros Heq. pose proof (fresh_heap (World (<[p := CRaw]> (heap w)) (cout w))) as Hf.
    cbn [heap] in Hf. rewrite <- Heq, lookup_insert_eq in Hf. discriminate. }
  exists p, o, (World (<[p := CObj o]> (heap w')) (cout w')).
  assert (Hp : heap (World (<[p := CObj o]> (heap w')) (cout w')) !! p = Some (CObj o))
    by apply lookup_insert_eq.
  cbn [cout].
  split; [|split; [|split; [|split; [|split]]]].
  - unfold new_. destruct w' as [h1 out]. apply (run_new (obj:=object)); assumption.
  - exact Hp.
  - exact Hname.
  - rewrite (run_arrow _ _ _ _ Hp), <- Hname. reflexivity.
  - intros g.
    assert (Hcase : dynamic_type o = KPolygon \/ dynamic_type o <> KPolygon)
      by (destruct o; (now left) || (now right)).
    destruct Hcase as [Hpoly|Hpoly]; [now left|right].
    destruct (call_run o (Hdet Hpoly)) as (area & perimeter & Hcall).
    destruct (Hcall g (World (<[p := CObj o]> (heap w')) (cout w')))
      as (out & Hg & _).
    eexists _, _. rewrite (run_arrow _ _ _ _ Hp). split; [exact Hg|].
    rewrite (run_arrow p _ o) by exact Hp. now rewrite <- Hname.
  - intros s. unfold assign_name.
    rewrite !run_bind, (run_load_obj _ _ _ Hp).
    rewrite (run_store _ _ _ _ Hp). cbn [heap cout].
    rewrite (run_arrow p _ (wr get_name s o)) by apply lookup_insert_eq.
    cbn [observe]. now rewrite rd_wr_get_name.
Qed.
End Accessors.

(** ** Shape.cc: destruction through a base class *)

Section Destruction.
Import Shape_cc.
Context `{Cmath}.
#[local] Open Scope float_scope.
#[local] Open Scope list_scope.
Implicit Types w : world object.

(** Every destructor of the hierarchy is virtual, so [delete] on a pointer
    of any static type runs the destructor of the dynamic type. *)
Lemma delete_run (T : klass) (p : loc) (o : object) w :
  heap w !! p = Some (CObj o) ->
  derives (dynamic_type o) T = true ->
  delete_ T p w = (dtor o;; dealloc p) w.
Proof.
  intros Hp HT. unfold delete_.
  rewrite run_bind, (run_load_obj _ _ _ Hp), HT.
  now destruct T.
Qed.

(** [new Trapezoid(...)]: two blocks, the object and its angled side. *)
Lemma new_Trapezoid_run (name : string) (l s h : float) w :
  let p := fresh (dom (heap w)) in
  let a := fresh (dom (<[p := CRaw]> (heap w))) in
  exists t angled,
    new_Trapezoid name l s h w
    = Ok p (World (<[p := CObj (OTrapezoid t)]>
                     (<[a := CDouble (Some angled)]> (<[p := CRaw]> (heap w))))
                  (cout w))
    /\ Trapezoid.m_angled_side_length t = a.
Proof.
  intros p a. eexists _, _. split.
  - unfold new_Trapezoid, new_.
    apply (run_new (obj:=object)).
    + rewrite run_fmap, Trapezoid_run. reflexivity.
    + cbn [heap]. destruct (second_fresh (heap w) CRaw) as (_ & _ & Hne).
      rewrite lookup_insert_ne by exact Hne. apply lookup_insert_eq.
  - reflexivity.
Qed.

(** The destructor of a Trapezoid releases the block of the angled side. *)
Lemma Trapezoid_dtor_run (t : Trapezoid.t) d w :
  heap w !! Trapezoid.m_angled_side_length t = Some (CDouble d) ->
  dtor (OTrapezoid t) w
  = Ok tt (World (delete (Trapezoid.m_angled_side_length t) (heap w)) (cout w)).
Proof.
  intros Ha. cbn [dtor]. unfold Trapezoid.dtor.
  rewrite run_bind, (run_delete_double _ _ _ Ha). reflexivity.
Qed.

(** [new Trapezoid(...)] followed by [delete] through a pointer to any of
    its bases: both blocks were live, both are released, and the free
    store is as before.  A second [delete] of the same pointer is the
    fault [InvalidAccess]. *)
Lemma delete_Trapezoid_restores (name : string) (l s h : float) w :
  exists p t w1,
    new_Trapezoid name l s h w = Ok p w1
    /\ heap w1 !! p = Some (CObj (OTrapezoid t))
    /\ is_Some (heap w1 !! Trapezoid.m_angled_side_length t)
    /\ forall T, derives KTrapezoid T = true ->
                 delete_ T p w1 = Ok tt w
                 /\ delete_ T p w = Fault (InvalidAccess p).
Proof.
  destruct (new_Trapezoid_run name l s h w) as (t & angled & Hnew & Ha).
  destruct (second_fresh (heap w) CRaw) as (Hp0 & Ha0 & Hne).
  set (p := fresh (dom (heap w))) in *.
  set (a := fresh (dom (<[p := CRaw]> (heap w)))) in *.
  eexists p, t, _. split; [exact Hnew|].
  assert (Hp : (<[p := CObj (OTrapezoid t)]>
                  (<[a := CDouble (Some angled)]> (<[p := CRaw]> (heap w))))
               !! p = Some (CObj (OTrapezoid t))) by apply lookup_insert_eq.
  assert (Hla : (<[p := CObj (OTrapezoid t)]>
                   (<[a := CDouble (Some angled)]> (<[p := CRaw]> (heap w))))
                !! a = Some (CDouble (Some angled))).
  { rewrite lookup_insert_ne by congruence. apply lookup_insert_eq. }
  cbn [heap]. split; [exact Hp|]. split; [rewrite Ha; eauto|].
  intros T HT. split.
  - rewrite (delete_run T p (OTrapezoid t)) by assumption.
    rewrite run_bind, (Trapezoid_dtor_run t (Some angled)) by (rewrite Ha; exact Hla).
    rewrite Ha.
    erewrite run_dealloc
      by (cbn [heap]; rewrite lookup_delete_ne by congruence; exact Hp).
    cbn [heap cout]. apply Ok_world; [|reflexivity].
    now apply heap_restored.
  - unfold delete_. rewrite run_bind. unfold load_obj, bind, load.
    fold p. now rewrite Hp0.
Qed.

(** The same for every class: an object made by [new] and destroyed by
    [delete] through a pointer to any of its bases leaves nothing behind. *)
Lemma delete_constructed_restores (args : ctor_args) w :
  exists p o w1,
    new_ (construct args) w = Ok p w1
    /\ heap w1 !! p = Some (CObj o)
    /\ forall T, derives (dynamic_type o) T = true -> delete_ T p w1 = Ok tt w.
Proof.
  assert (Hpure : forall o : object,
             dtor o = mret tt ->
             exists p w1,
               new_ (mret o) w = Ok p w1
               /\ heap w1 !! p = Some (CObj o)
               /\ forall T, derives (dynamic_type o) T = true ->
                            delete_ T p w1 = Ok tt w).
  { intros o Hdtor. pose proof (fresh_heap w) as Hp0.
    set (p := fresh (dom (heap w))) in *.
    exists p, (World (<[p := CObj o]> (<[p := CRaw]> (heap w))) (cout w)).
    split; [|split].
    - unfold new_. apply (run_new (obj:=object)); [reflexivity|].
      apply lookup_insert_eq.
    - apply lookup_insert_eq.
    - intros T HT.
      rewrite (delete_run T p o) by (assumption || apply lookup_insert_eq).
      rewrite Hdtor, run_bind, run_ret.
      erewrite run_dealloc by apply lookup_insert_eq.
      cbn [heap cout]. apply Ok_world; [|reflexivity].
      apply map_eq. intros i.
      rewrite lookup_delete, !lookup_insert.
      repeat case_decide; subst; congruence. }
  destruct args as [name r|name k|name a b|name a|name l s h].
  1-4: cbn [construct];
    match goal with
    | |- context [new_ (mret ?o)] =>
        destruct (Hpure o eq_refl) as (p & w1 & Hnew & Hp & Hdel);
        now exists p, o, w1
    end.
  destruct (delete_Trapezoid_restores name l s h w)
    as (p & t & w1 & Hnew & Hp & _ & Hdel).
  exists p, (OTrapezoid t), w1. split; [exact Hnew|]. split; [exact Hp|].
  intros T HT. now apply Hdel.
Qed.

(** Had [~Shape] not been virtual, [delete] on a [Shape*] would have run
    [Shape::~Shape] alone, which releases nothing: the block of the angled
    side would stay behind. *)
Lemma Shape_dtor_alone_releases_nothing (t : Trapezoid.t) w :
  dtor_of KShape (OTrapezoid t) w = Ok tt w.
Proof. reflexivity. Qed.
End Destruction.

(** ** Shape_RAII.cc: destruction by smart pointers *)

Section RAII.
Import Shape_RAII.
Context `{Cmath}.
#[local] Open Scope float_scope.
#[local] Open Scope list_scope.
Implicit Types w : world object.

Lemma RAII_Trapezoid_run (name : string) (l s h : float) w :
  let a := fresh (dom (heap w)) in
  let angled := sqrt (pow ((l - s) / 2) 2 + pow h 2) in
  Trapezoid.Trapezoid name l s h w
  = Ok {| Trapezoid.base :=
            {| Polygon.base := Shape.Shape name; Polygon.m_sides := 4;
               Polygon.m_area := Some (h * (l + s) / 2);
               Polygon.m_perimeter := Some (s + l + 2 * angled) |};
          Trapezoid.m_long_side := l; Trapezoid.m_short_side := s;
          Trapezoid.m_height := h; Trapezoid.m_angled_side_length := a |}
       (World (<[a := CDouble (Some angled)]> (heap w)) (cout w)).
Proof.
  intros a angled. unfold Trapezoid.Trapezoid.
  rewrite run_bind, run_alloc. fold a.
  rewrite run_bind, (run_store_double a _ None) by apply lookup_insert_eq.
  cbn [heap cout]. rewrite insert_insert_eq.
  rewrite run_bind, (run_load_double a angled) by apply lookup_insert_eq.
  reflexivity.
Qed.

Lemma RAII_delete_run (T : klass) (p : loc) (o : object) w :
  heap w !! p = Some (CObj o) ->
  derives (dynamic_type o) T = true ->
  delete_ T p w = (dtor o;; dealloc p) w.
Proof.
  intros Hp HT. unfold delete_.
  rewrite run_bind, (run_load_obj _ _ _ Hp), HT.
  now destruct T.
Qed.

Lemma RAII_Trapezoid_dtor_run (t : Trapezoid.t) d w :
  heap w !! Trapezoid.m_angled_side_length t = Some (CDouble d) ->
  dtor (OTrapezoid t) w
  = Ok tt (World (delete (Trapezoid.m_angled_side_length t) (heap w)) (cout w)).
Proof.
  intros Ha. cbn [dtor]. unfold Trapezoid.dtor.
  rewrite run_bind, (run_delete_double _ _ _ Ha). reflexivity.
Qed.

(** [make_unique<Trapezoid>(...)]: the two blocks of [new Trapezoid(...)]. *)
Lemma make_unique_Trapezoid_run (name : string) (l s h : float) w :
  let p := fresh (dom (heap w)) in
  let a := fresh (dom (<[p := CRaw]> (heap w))) in
  exists t angled,
    make_unique (OTrapezoid <$> Trapezoid.Trapezoid name l s h) w
    = Ok p (World (<[p := CObj (OTrapezoid t)]>
                     (<[a := CDouble (Some angled)]> (<[p := CRaw]> (heap w))))
                  (cout w))
    /\ Trapezoid.m_angled_side_length t = a.
Proof.
  intros p a. eexists _, _. split.
  - unfold make_unique, new_.
    apply (run_new (obj:=object)).
    + rewrite run_fmap, RAII_Trapezoid_run. reflexivity.
    + cbn [heap]. destruct (second_fresh (heap w) CRaw) as (_ & _ & Hne).
      rewrite lookup_insert_ne by exact Hne. apply lookup_insert_eq.
  - reflexivity.
Qed.

(** [make_shared<Trapezoid>(...)]: the same two blocks and the control
    block, which counts one owner. *)
Lemma make_shared_Trapezoid_run (name : string) (l s h : float) w :
  let p := fresh (dom (heap w)) in
  let a := fresh (dom (<[p := CRaw]> (heap w))) in
  exists t angled,
    let h2 := <[p := CObj (OTrapezoid t)]>
                (<[a := CDouble (Some angled)]> (<[p := CRaw]> (heap w))) in
    make_shared (OTrapezoid <$> Trapezoid.Trapezoid name l s h) w
    = Ok (fresh (dom h2)) (World (<[fresh (dom h2) := CCtrl 1 p]> h2) (cout w))
    /\ Trapezoid.m_angled_side_length t = a.
Proof.
  intros p a. eexists _, _. split.
  - apply (run_make_shared (obj:=object)).
    + rewrite run_fmap, RAII_Trapezoid_run. reflexivity.
    + cbn [heap]. destruct (second_fresh (heap w) CRaw) as (_ & _ & Hne).
      rewrite lookup_insert_ne by exact Hne. apply lookup_insert_eq.
  - reflexivity.
Qed.

(** A [unique_ptr<T>] to a Trapezoid, for any base [T], going out of
    scope: both blocks are released. *)
Lemma unique_Trapezoid_restores (T : klass) (name : string) (l s h : float) w :
  derives KTrapezoid T = true ->
  exists u t w1,
    make_unique (OTrapezoid <$> Trapezoid.Trapezoid name l s h) w = Ok u w1
    /\ heap w1 !! u = Some (CObj (OTrapezoid t))
    /\ is_Some (heap w1 !! Trapezoid.m_angled_side_length t)
    /\ unique_ptr_dtor T u w1 = Ok tt w.
Proof.
  intros HT.
  destruct (make_unique_Trapezoid_run name l s h w) as (t & angled & Hnew & Ha).
  destruct (second_fresh (heap w) CRaw) as (Hp0 & Ha0 & Hne).
  set (p := fresh (dom (heap w))) in *.
  set (a := fresh (dom (<[p := CRaw]> (heap w)))) in *.
  eexists p, t, _. split; [exact Hnew|].
  assert (Hp : (<[p := CObj (OTrapezoid t)]>
                  (<[a := CDouble (Some angled)]> (<[p := CRaw]> (heap w))))
               !! p = Some (CObj (OTrapezoid t))) by apply lookup_insert_eq.
  assert (Hla : (<[p := CObj (OTrapezoid t)]>
                   (<[a := CDouble (Some angled)]> (<[p := CRaw]> (heap w))))
                !! a = Some (CDouble (Some angled))).
  { rewrite lookup_insert_ne by congruence. apply lookup_insert_eq. }
  cbn [heap]. split; [exact Hp|]. split; [rewrite Ha; eauto|].
  unfold unique_ptr_dtor.
  rewrite (RAII_delete_run T p (OTrapezoid t)) by assumption.
  rewrite run_bind, (RAII_Trapezoid_dtor_run t (Some angled))
    by (rewrite Ha; exact Hla).
  rewrite Ha.
  erewrite run_dealloc
    by (cbn [heap]; rewrite lookup_delete_ne by congruence; exact Hp).
  cbn [heap cout]. rewrite heap_restored by assumption. now rewrite world_eta.
Qed.

(** A Trapezoid made by [make_shared], shared by [n] further [shared_ptr]s
    of whatever base type, all [n + 1] of which go away: the object is
    destroyed once, by the last of them, and nothing stays behind. *)
Lemma shared_Trapezoid_restores (n : nat) (name : string) (l s h : float) w :
  exists sp t w1,
    make_shared (OTrapezoid <$> Trapezoid.Trapezoid name l s h) w = Ok sp w1
    /\ is_Some (heap w1 !! Trapezoid.m_angled_side_length t)
    /\ (iterate n (sp_copy sp);;
        iterate n (shared_ptr_dtor sp);;
        shared_ptr_dtor sp) w1 = Ok tt w.
Proof.
  destruct (make_shared_Trapezoid_run name l s h w) as (t & angled & Hnew & Ha).
  destruct (second_fresh (heap w) CRaw) as (Hp0 & Ha0 & Hne).
  set (p := fresh (dom (heap w))) in *.
  set (a := fresh (dom (<[p := CRaw]> (heap w)))) in *.
  cbn zeta in Hnew.
  set (h2 := <[p := CObj (OTrapezoid t)]>
               (<[a := CDouble (Some angled)]> (<[p := CRaw]> (heap w)))) in *.
  assert (Hc2 : h2 !! fresh (dom h2) = None) by apply not_elem_of_dom, is_fresh.
  set (c := fresh (dom h2)) in *.
  assert (Hcp : c <> p).
  { intros ->. unfold h2 in Hc2. now rewrite lookup_insert_eq in Hc2. }
  assert (Hca : c <> a).
  { intros ->. unfold h2 in Hc2.
    rewrite lookup_insert_ne, lookup_insert_eq in Hc2 by congruence. discriminate. }
  assert (Hc0 : heap w !! c = None).
  { unfold h2 in Hc2. now rewrite !lookup_insert_ne in Hc2 by congruence. }
  eexists c, t, _. split; [exact Hnew|]. cbn [heap]. split.
  { rewrite Ha. exists (CDouble (Some angled)).
    rewrite lookup_insert_ne by congruence. unfold h2.
    rewrite lookup_insert_ne by congruence. apply lookup_insert_eq. }
  rewrite run_bind, (run_sp_copies n 1 c p) by apply lookup_insert_eq.
  cbn [heap cout]. rewrite insert_insert_eq.
  rewrite run_bind. unfold shared_ptr_dtor.
  rewrite (run_sp_releases destroy n 0 c p) by apply lookup_insert_eq.
  cbn [heap cout]. rewrite insert_insert_eq.
  assert (Hdestroy :
    destroy p (World (<[c := CCtrl 1 p]> h2) (cout w))
    = Ok tt (World (delete p (delete a (<[c := CCtrl 1 p]> h2))) (cout w))).
  { unfold destroy. rewrite run_bind.
    rewrite (run_load_obj p (OTrapezoid t))
      by (cbn [heap]; rewrite lookup_insert_ne by congruence; apply lookup_insert_eq).
    rewrite run_bind, (RAII_Trapezoid_dtor_run t (Some angled))
      by (rewrite Ha; cbn [heap]; rewrite lookup_insert_ne by congruence;
          unfold h2; rewrite lookup_insert_ne by congruence;
          apply lookup_insert_eq).
    rewrite Ha.
    erewrite run_dealloc
      by (cbn [heap]; rewrite lookup_delete_ne, lookup_insert_ne by congruence;
          apply lookup_insert_eq).
    reflexivity. }
  rewrite (run_sp_last_release destroy c p _ _ (CCtrl 1 p) (lookup_insert_eq _ _ _) Hdestroy).
  - cbn [heap cout]. apply Ok_world; [|reflexivity].
    apply map_eq. intros i. unfold h2.
    repeat (rewrite lookup_delete || rewrite lookup_insert).
    repeat case_decide; subst; congruence.
  - cbn [heap]. rewrite !lookup_delete_ne by congruence. apply lookup_insert_eq.
Qed.
End RAII.

(** ** The claims about both translation units *)

Section Both.
Context `{Cmath}.
#[local] Open Scope list_scope.

(** C1.  Every destructor being virtual, [delete] through a pointer whose
    static type is any base of the object runs the destructor of the
    object's own class, and an object of any class made by [new] and
    destroyed so leaves the free store as it was.  For a Trapezoid held
    through a handle of base type [T] (Shape, Polygon, or Trapezoid itself)
    this releases the block of its angled side together with the object,
    and leaves the free store exactly as it was before the construction,
    without a fault, under each discipline: [new]/[delete], a
    [unique_ptr<T>], and a group of [n + 1] [shared_ptr]s. *)
Theorem delete_through_base_releases_trapezoid
    (T : Shape_cc.klass) (T' : Shape_RAII.klass)
    (HT : Shape_cc.derives Shape_cc.KTrapezoid T = true)
    (HT' : Shape_RAII.derives Shape_RAII.KTrapezoid T' = true)
    (name : string) (l s h : float) :
  (forall (B : Shape_cc.klass) (p : loc) (o : Shape_cc.object) w,
      heap w !! p = Some (CObj o) ->
      Shape_cc.derives (Shape_cc.dynamic_type o) B = true ->
      Shape_cc.delete_ B p w = (Shape_cc.dtor o;; dealloc p) w)
  /\ (forall (args : ctor_args) w,
      exists p o w1,
        Shape_cc.new_ (Shape_cc.construct args) w = Ok p w1
        /\ heap w1 !! p = Some (CObj o)
        /\ forall B, Shape_cc.derives (Shape_cc.dynamic_type o) B = true ->
                     Shape_cc.delete_ B p w1 = Ok tt w)
  /\ (forall w,
      exists p t w1,
        Shape_cc.new_Trapezoid name l s h w = Ok p w1
        /\ heap w1 !! p = Some (CObj (Shape_cc.OTrapezoid t))
        /\ is_Some (heap w1 !! Shape_cc.Trapezoid.m_angled_side_length t)
        /\ Shape_cc.delete_ T p w1 = Ok tt w
        /\ Shape_cc.delete_ T p w = Fault (InvalidAccess p))
  /\ (forall w,
      exists u t w1,
        Shape_RAII.make_unique
          (Shape_RAII.OTrapezoid <$> Shape_RAII.Trapezoid.Trapezoid name l s h) w
        = Ok u w1
        /\ heap w1 !! u = Some (CObj (Shape_RAII.OTrapezoid t))
        /\ is_Some (heap w1 !! Shape_RAII.Trapezoid.m_angled_side_length t)
        /\ Shape_RAII.unique_ptr_dtor T' u w1 = Ok tt w)
  /\ (forall (n : nat) w,
      exists sp t w1,
        make_shared
          (Shape_RAII.OTrapezoid <$> Shape_RAII.Trapezoid.Trapezoid name l s h) w
        = Ok sp w1
        /\ is_Some (heap w1 !! Shape_RAII.Trapezoid.m_angled_side_length t)
        /\ (iterate n (sp_copy sp);;
            iterate n (Shape_RAII.shared_ptr_dtor sp);;
            Shape_RAII.shared_ptr_dtor sp) w1 = Ok tt w).
Proof.
  split; [|split; [|split; [|split]]].
  - intros B p o w. apply delete_run.
  - intros args w. apply delete_constructed_restores.
  - intros w.
    destruct (delete_Trapezoid_restores name l s h w)
      as (p & t & w1 & Hnew & Hp & Ha & Hdel).
    exists p, t, w1. destruct (Hdel T HT) as [Hd1 Hd2]. now repeat split.
  - intros w. now apply unique_Trapezoid_restores.
  - intros n w. apply shared_Trapezoid_restores.
Qed.

(** C10.  The two translation units define the same hierarchy: for the
    same constructor arguments and the same text already on [cout], the
    classes of Shape.cc and of Shape_RAII.cc show the same name, and the
    same result and the same text on [cout] from [get_area()] and from
    [get_perimeter()], the line of Square's [get_area()] included. *)
Theorem hierarchies_agree (args : ctor_args) (g : getter)
    (w1 : world Shape_cc.object) (w2 : world Shape_RAII.object)
    (Hout : cout w1 = cout w2) :
  observe ((o ← Shape_cc.construct args; mret (rd Shape_cc.get_name o)) w1)
  = observe ((o ← Shape_RAII.construct args; mret (rd Shape_RAII.get_name o)) w2)
  /\ observe ((o ← Shape_cc.construct args; Shape_cc.call g o) w1)
     = observe ((o ← Shape_RAII.construct args; Shape_RAII.call g o) w2).
Proof.
  destruct args as [name r|name k|name a b|name a|name l s h].
  1-4: destruct g; split; cbv -[cout app]; now rewrite ?Hout.
  cbn [Shape_cc.construct Shape_RAII.construct].
  rewrite !run_bind, !run_fmap, Trapezoid_run, RAII_Trapezoid_run.
  destruct g; split; cbv -[cout app PrimFloat.sqrt pow]; now rewrite ?Hout.
Qed.

(** The two [main] functions, started with nothing in the free store,
    return 0 and leave nothing in it, as the header comments of both files
    say of a run under valgrind. *)
Lemma main_leaves_no_block :
  (exists out, Shape_cc.main (World ∅ []) = Ok 0%Z (World ∅ out))
  /\ (exists out, Shape_RAII.main (World ∅ []) = Ok 0%Z (World ∅ out)).
Proof. split; eexists; vm_compute; reflexivity. Qed.
End Both.

(** ** The theorems with hypotheses, at concrete inputs *)

Lemma delete_through_base_releases_trapezoid_witness :
  Shape_cc.derives Shape_cc.KTrapezoid Shape_cc.KShape = true
  /\ Shape_RAII.derives Shape_RAII.KTrapezoid Shape_RAII.KPolygon = true
  /\ exists p t w1,
       @Shape_cc.new_Trapezoid pow_squares "the stand" 4 2 1 (World ∅ [])
       = Ok p w1
       /\ heap w1 !! p = Some (CObj (Shape_cc.OTrapezoid t))
       /\ is_Some (heap w1 !! Shape_cc.Trapezoid.m_angled_side_length t)
       /\ Shape_cc.delete_ Shape_cc.KShape p w1 = Ok tt (World ∅ [])
       /\ Shape_cc.delete_ Shape_cc.KShape p (World ∅ [])
          = Fault (InvalidAccess p).
Proof.
  split; [reflexivity|]. split; [reflexivity|].
  exact (proj1 (proj2 (proj2 (@delete_through_base_releases_trapezoid pow_squares
                                Shape_cc.KShape Shape_RAII.KPolygon eq_refl eq_refl
                                "the stand" 4 2 1))) (World ∅ [])).
Defined.

Lemma trapezoid_measurements_witness :
  @within_one_ulp pow_squares
  /\ exists t w',
       @Shape_cc.Trapezoid.Trapezoid Shape_cc.object pow_squares
         "the stand" 4 2 1 (World ∅ []) = Ok t w'
       /\ load_double (Shape_cc.Trapezoid.m_angled_side_length t) w'
          = Ok (sqrt 2) w'
       /\ Shape_cc.get_area (Shape_cc.OTrapezoid t) w' = Ok 3%float w'
       /\ Shape_cc.get_perimeter (Shape_cc.OTrapezoid t) w'
          = Ok (6 + 2 * sqrt 2)%float w'.
Proof.
  assert (Hulp : @within_one_ulp pow_squares).
  { split; [intros x; left; reflexivity|reflexivity]. }
  split; [exact Hulp|].
  exact (proj2 (@trapezoid_measurements pow_squares Hulp)
               "the stand" (World ∅ [])).
Defined.

Lemma accessors_change_nothing_witness :
  let o := Shape_cc.OSquare (Shape_cc.Square.Square "the box" 1) in
  let w := World {[1%positive := CObj o]} [] in
  heap w !! 1%positive = Some (CObj o)
  /\ Shape_cc.determinate o = true
  /\ exists area perimeter : float,
       forall gs : list getter,
       exists out,
         Shape_cc.call_all 1%positive gs w
         = Ok (map (fun g => match g with
                             | GetArea => area
                             | GetPerimeter => perimeter
                             end) gs)
              (World (heap w) (cout w ++ out)%list)
         /\ (Shape_cc.dynamic_type o <> Shape_cc.KSquare \/ GetArea ∉ gs
             -> out = []).
Proof.
  cbn zeta. split; [reflexivity|]. split; [reflexivity|].
  apply accessors_change_nothing; reflexivity.
Defined.

Lemma hierarchies_agree_witness :
  cout (World (obj:=Shape_cc.object) ∅ []) = cout (World (obj:=Shape_RAII.object) ∅ [])
  /\ observe ((o ← @Shape_cc.construct pow_squares (MkSquare "the box" 1);
               Shape_cc.call GetArea o) (World ∅ []))
     = observe ((o ← @Shape_RAII.construct pow_squares (MkSquare "the box" 1);
                 Shape_RAII.call GetArea o) (World ∅ [])).
Proof.
  split; [reflexivity|].
  exact (proj2 (@hierarchies_agree pow_squares (MkSquare "the box" 1) GetArea
                  (World ∅ []) (World ∅ []) eq_refl)).
Defined.

(** * Further properties of the code *)

(** ** Proof steps on heaps *)

Ltac lookup :=
  cbn [heap cout];
  repeat first [ rewrite lookup_insert_eq
               | rewrite lookup_delete_eq
               | rewrite lookup_insert_ne by congruence
               | rewrite lookup_delete_ne by congruence ];
  try (reflexivity || assumption).

(** From [C !! k = None] for a chain of inserts [C], that [k] differs from
    every key of the chain and is unused below it. *)
Ltac fresh_facts Hk :=
  repeat (apply lookup_insert_None in Hk as [Hk ?]).

(** ** More binary64 arithmetic *)

Lemma binary_round_aux_abs prec emax m e l :
  SFabs (binary_round_aux prec emax false m e l) = binary_round_aux prec emax false m e l.
Proof.
  unfold binary_round_aux.
  destruct (shr_fexp prec emax m e l) as [mrs' e'].
  destruct (shr_fexp prec emax _ e' loc_Exact) as [mrs'' e''].
  destruct (shr_m mrs''); [reflexivity| |reflexivity].
  now destruct (Z.leb e'' (emax - prec)).
Qed.

Lemma binary_round_aux_opp prec emax s m e l :
  binary_round_aux prec emax (negb s) m e l = SFopp (binary_round_aux prec emax s m e l).
Proof.
  unfold binary_round_aux.
  destruct (shr_fexp prec emax m e l) as [mrs' e'].
  destruct (shr_fexp prec emax _ e' loc_Exact) as [mrs'' e''].
  destruct (shr_m mrs''); [reflexivity| |reflexivity].
  now destruct (Z.leb e'' (emax - prec)).
Qed.

Lemma SFmul_square_abs prec emax x :
  SFabs (SFmul prec emax x x) = SFmul prec emax x x.
Proof.
  destruct x as [s|s| |s m e]; cbn; rewrite ?xorb_nilpotent; try reflexivity.
  apply binary_round_aux_abs.
Qed.

Lemma SFmul_abs prec emax x y :
  SFabs x = x -> SFabs y = y -> SFabs (SFmul prec emax x y) = SFmul prec emax x y.
Proof.
  destruct x as [sx|sx| |sx mx ex], y as [sy|sy| |sy my ey]; cbn;
    intros Hx Hy; try reflexivity; inversion Hx; inversion Hy; subst; cbn; try reflexivity.
  all: apply binary_round_aux_abs.
Qed.

Lemma SFltb_abs_zero x : SFabs x = x -> SFltb x (S754_zero false) = false.
Proof. destruct x as [s|s| |s m e]; cbn; intros Hx; inversion Hx; reflexivity. Qed.

Lemma SFsqrt_not_negative prec emax x : SFltb (SFsqrt prec emax x) (S754_zero false) = false.
Proof.
  destruct x as [s|[]| |[] m e]; cbn; try reflexivity.
  destruct (SFsqrt_core_binary prec emax (Z.pos m) e) as [[mz ez] lz].
  apply SFltb_abs_zero, binary_round_aux_abs.
Qed.

Lemma SFopp_involutive x : SFopp (SFopp x) = x.
Proof. destruct x; cbn; now rewrite ?negb_involutive. Qed.

Lemma SFmul_opp_l prec emax x y :
  SFmul prec emax (SFopp x) y = SFopp (SFmul prec emax x y).
Proof.
  destruct x as [sx|sx| |sx mx ex], y as [sy|sy| |sy my ey]; cbn; try reflexivity;
   try (now destruct sx, sy).
  rewrite <- binary_round_aux_opp. now destruct sx, sy.
Qed.

Lemma SFadd_comm prec emax x y : SFadd prec emax x y = SFadd prec emax y x.
Proof.
  destruct x as [sx|sx| |sx mx ex], y as [sy|sy| |sy my ey]; cbn; try reflexivity;
    try (now destruct sx, sy).
  now rewrite Z.min_comm, Z.add_comm.
Qed.

Lemma float_add_comm (x y : float) : (x + y = y + x)%float.
Proof. apply Prim2SF_inj. rewrite !add_spec. apply SFadd_comm. Qed.

Lemma float_square_not_negative (x : float) : ((x * x <? 0) = false)%float.
Proof.
  rewrite ltb_spec, mul_spec. change (Prim2SF 0) with (S754_zero false). 
  apply SFltb_abs_zero, SFmul_square_abs.
Qed.


Lemma float_mul_nan_l (x : float) : (nan * x = nan)%float.
Proof. apply Prim2SF_inj. rewrite mul_spec. reflexivity. Qed.

Lemma float_add_nan_l (x : float) : (nan + x = nan)%float.
Proof. apply Prim2SF_inj. rewrite add_spec. reflexivity. Qed.

(** ** Shape.cc: signs, symmetries and values that are not numbers *)

Section FloatFacts.
Import Shape_cc.
Context `{Cmath}.
#[local] Open Scope float_scope.
#[local] Open Scope list_scope.
Implicit Types w : world object.

(** X1.  The area of a Circle and of a Square, and the angled side of a
    Trapezoid, are never negative, whatever the inputs and whatever [pow]
    returns: a product [x * x], its product with [PI], and a square root
    are not below zero in binary64.  The area of a Rectangle and the
    perimeter of a Circle can be. *)
Theorem squares_are_never_negative (name : string) (x l s h : float) w :
  (exists a, get_area (OCircle (Circle.Circle name x)) w = Ok a w
             /\ (a <? 0) = false)
  /\ (exists a w', get_area (OSquare (Square.Square name x)) w = Ok a w'
                  /\ (a <? 0) = false)
  /\ (exists t w' angled,
        Trapezoid.Trapezoid name l s h w = Ok t w'
        /\ load_double (Trapezoid.m_angled_side_length t) w' = Ok angled w'
        /\ (angled <? 0) = false)
  /\ (exists a p,
        get_area (ORectangle (Rectangle.Rectangle name (-3) 4)) w = Ok a w
        /\ (a <? 0) = true
        /\ get_perimeter (OCircle (Circle.Circle name (-1))) w = Ok p w
        /\ (p <? 0) = true).
Proof.
  split; [|split; [|split]].
  - eexists. split; [reflexivity|]. cbn.
    rewrite ltb_spec, !mul_spec. change (Prim2SF 0) with (S754_zero false).
    apply SFltb_abs_zero, SFmul_abs; [apply SFmul_square_abs|reflexivity].
  - eexists _, _. split; [now apply square_get_area_run|].
    apply float_square_not_negative.
  - eexists _, _, _. split; [apply Trapezoid_run|]. split.
    + apply run_load_double. cbn [heap Trapezoid.m_angled_side_length].
      apply lookup_insert_eq.
    + rewrite ltb_spec, sqrt_spec. apply SFsqrt_not_negative.
  - eexists _, _. repeat split.
Qed.

(** X2.  A Circle of radius [- r] has the area of the Circle of radius [r]
    and the opposite perimeter: a negative radius is accepted and only
    the perimeter shows it. *)
Theorem circle_of_negated_radius (name : string) (r : float) w :
  get_area (OCircle (Circle.Circle name (- r))) w
  = get_area (OCircle (Circle.Circle name r)) w
  /\ get_perimeter (OCircle (Circle.Circle name (- r))) w = Ok (- (r * 2 * PI)) w.
Proof.
  cbn. unfold Circle.get_area, Circle.get_perimeter. cbn. split; do 2 f_equal.
  - apply Prim2SF_inj. rewrite !mul_spec, !opp_spec. unfold SF64mul.
    rewrite (SFmul_opp_l _ _ (Prim2SF r) (SFopp (Prim2SF r))).
    rewrite (SFmul_comm _ _ (Prim2SF r)), SFmul_opp_l.
    now rewrite SFopp_involutive.
  - apply Prim2SF_inj. rewrite opp_spec, !mul_spec, opp_spec. unfold SF64mul.
    now rewrite !SFmul_opp_l.
Qed.

(** X3.  Exchanging the two sides of a Rectangle changes neither its area
    nor its perimeter, and exchanging the two parallel sides of a
    Trapezoid does not change its area. *)
Theorem rectangle_orientation (name : string) (a b h : float) w :
  get_area (ORectangle (Rectangle.Rectangle name b a)) w
  = get_area (ORectangle (Rectangle.Rectangle name a b)) w
  /\ get_perimeter (ORectangle (Rectangle.Rectangle name b a)) w
     = get_perimeter (ORectangle (Rectangle.Rectangle name a b)) w
  /\ observe ((t ← Trapezoid.Trapezoid name b a h; get_area (OTrapezoid t)) w)
     = observe ((t ← Trapezoid.Trapezoid name a b h; get_area (OTrapezoid t)) w).
Proof.
  split; [|split].
  - cbn. unfold Polygon.get_area. cbn. now rewrite (float_mul_comm b a).
  - cbn. unfold Rectangle.get_perimeter. cbn. now rewrite (float_add_comm b a).
  - rewrite !run_bind, !Trapezoid_run. cbn. unfold Polygon.get_area. cbn.
    now rewrite (float_add_comm b a).
Qed.
(** X4.  A side or a radius that is not a number is not rejected: the
    area and the perimeter of the Rectangle, the Circle and the Square
    are then not a number either. *)
Theorem not_a_number_propagates (name : string) (b : float) w :
  get_area (ORectangle (Rectangle.Rectangle name nan b)) w = Ok nan w
  /\ get_area (ORectangle (Rectangle.Rectangle name b nan)) w = Ok nan w
  /\ get_perimeter (ORectangle (Rectangle.Rectangle name nan b)) w = Ok nan w
  /\ get_perimeter (ORectangle (Rectangle.Rectangle name b nan)) w = Ok nan w
  /\ get_area (OCircle (Circle.Circle name nan)) w = Ok nan w
  /\ get_perimeter (OCircle (Circle.Circle name nan)) w = Ok nan w
  /\ observe (get_area (OSquare (Square.Square name nan)) w)
     = inr (nan, cout w ++ [OStr "The square of "; ODouble nan; OStr "!"; OEndl])
  /\ get_perimeter (OSquare (Square.Square name nan)) w = Ok nan w.
Proof.
  repeat split; cbn;
    unfold Polygon.get_area, Rectangle.get_perimeter; cbn.
  - now rewrite float_mul_nan_l.
  - now rewrite (float_mul_comm b), float_mul_nan_l.
  - now rewrite float_add_nan_l, float_mul_nan_l.
  - now rewrite (float_add_comm b), float_add_nan_l, float_mul_nan_l.
Qed.
End FloatFacts.

(** ** Shape.cc: what a program may and may not do with its objects *)

Section Ownership.
Import Shape_cc.
Context `{Cmath}.
#[local] Open Scope float_scope.
#[local] Open Scope list_scope.
Implicit Types w : world object.

Lemma new_pure_run (o : object) w :
  new_ (mret o) w
  = Ok (fresh (dom (heap w)))
       (World (<[fresh (dom (heap w)) := CObj o]> (heap w)) (cout w)).
Proof.
  unfold new_.
  refine (eq_trans (run_new (obj:=object) (mret o) o w
                      (<[fresh (dom (heap w)) := CRaw]> (heap w)) (cout w) eq_refl _) _).
  - apply lookup_insert_eq.
  - now rewrite insert_insert_eq.
Qed.

Lemma delete_pure_run (T : klass) (p : loc) (o : object) h out :
  h !! p = None -> dtor o = mret tt ->
  derives (dynamic_type o) T = true ->
  delete_ T p (World (<[p := CObj o]> h) out) = Ok tt (World h out).
Proof.
  intros Hp Hdtor HT.
  rewrite (delete_run T p o) by (assumption || apply lookup_insert_eq).
  rewrite Hdtor, run_bind, run_ret.
  erewrite run_dealloc by apply lookup_insert_eq.
  cbn [heap cout]. now rewrite delete_insert_eq, delete_id.
Qed.

Lemma new_Trapezoid_explicit (name : string) (l s h : float) w :
  let p := fresh (dom (heap w)) in
  let a := fresh (dom (<[p := CRaw]> (heap w))) in
  let angled := sqrt (pow ((l - s) / 2) 2 + pow h 2) in
  new_Trapezoid name l s h w
  = Ok p (World (<[p := CObj (OTrapezoid
                     {| Trapezoid.base :=
                          {| Polygon.base := Shape.Shape name; Polygon.m_sides := 4;
                             Polygon.m_area := Some (h * (l + s) / 2);
                             Polygon.m_perimeter := Some (s + l + 2 * angled) |};
                        Trapezoid.m_long_side := l; Trapezoid.m_short_side := s;
                        Trapezoid.m_height := h;
                        Trapezoid.m_angled_side_length := a |})]>
                  (<[a := CDouble (Some angled)]> (<[p := CRaw]> (heap w))))
                (cout w)).
Proof.
  intros p a angled. unfold new_Trapezoid, new_.
  apply (run_new (obj:=object)).
  - rewrite run_fmap, Trapezoid_run. reflexivity.
  - destruct (second_fresh (heap w) CRaw) as (_ & _ & Hne).
    rewrite lookup_insert_ne by exact Hne. apply lookup_insert_eq.
Qed.

(** X5.  A Polygon constructed as such can be named and destroyed, but
    its constructor assigns neither measurement: [get_area()] and
    [get_perimeter()] read a member that was never written. *)
Theorem bare_polygon_has_no_measurements (name : string) (sides : N) w :
  exists p w1,
    new_Polygon name sides w = Ok p w1
    /\ arrow p get_area w1 = Fault IndeterminateValue
    /\ arrow p get_perimeter w1 = Fault IndeterminateValue
    /\ arrow p (fun this => mret (rd get_name this)) w1 = Ok name w1
    /\ forall T, derives KPolygon T = true -> delete_ T p w1 = Ok tt w.
Proof.
  eexists _, _. split; [apply new_pure_run|].
  pose proof (fresh_heap w) as Hp0. set (p := fresh (dom (heap w))) in *.
  assert (Hp : heap (World (<[p := CObj (OPolygon (Polygon.Polygon name sides))]> (heap w)) (cout w)) !! p
               = Some (CObj (OPolygon (Polygon.Polygon name sides))))
    by apply lookup_insert_eq.
  repeat split.
  - now rewrite (run_arrow _ _ _ _ Hp).
  - now rewrite (run_arrow _ _ _ _ Hp).
  - now rewrite (run_arrow _ _ _ _ Hp).
  - intros T HT. rewrite delete_pure_run by done. now rewrite world_eta.
Qed.

(** X8.  The destructors of Shape and of Polygon release nothing.  Run in
    place of the dispatched one on a Trapezoid, followed by the release
    of the object, they leave exactly one block behind: the angled side. *)
Theorem base_destructor_alone_leaks (name : string) (l s h : float) w :
  exists p t w1 angled,
    new_Trapezoid name l s h w = Ok p w1
    /\ heap w !! Trapezoid.m_angled_side_length t = None
    /\ forall T, T = KShape \/ T = KPolygon ->
       (this ← load_obj p; dtor_of T this;; dealloc p) w1
       = Ok tt (World (<[Trapezoid.m_angled_side_length t := CDouble (Some angled)]> (heap w))
                      (cout w)).
Proof.
  destruct (new_Trapezoid_run name l s h w) as (t & angled & Hnew & Ha).
  destruct (second_fresh (heap w) CRaw) as (Hp0 & Ha0 & Hne).
  set (p := fresh (dom (heap w))) in *.
  set (a := fresh (dom (<[p := CRaw]> (heap w)))) in *.
  eexists p, t, _, angled. split; [exact Hnew|]. rewrite Ha. split; [exact Ha0|].
  intros T HT. rewrite run_bind.
  rewrite (run_load_obj p (OTrapezoid t)) by apply lookup_insert_eq.
  assert (Hd : forall w', dtor_of T (OTrapezoid t) w' = Ok tt w')
    by (destruct HT as [-> | ->]; reflexivity).
  rewrite run_bind, Hd.
  erewrite run_dealloc by apply lookup_insert_eq.
  cbn [heap cout]. do 2 f_equal.
  apply map_eq. intros i.
  rewrite lookup_delete, !lookup_insert.
  repeat case_decide; subst; congruence.
Qed.

(** X9.  Assigning through the reference that [get_name()] returns changes
    the name and nothing else: assigning the current name back is the
    identity, a second assignment overrides the first, the class of the
    object stays, and both accessors return and print what they did. *)
Theorem renaming_changes_only_the_name (p : loc) (o : object) (s : string)
    (g : getter) w (Hp : heap w !! p = Some (CObj o)) :
  wr get_name (rd get_name o) o = o
  /\ (forall s', wr get_name s (wr get_name s' o) = wr get_name s o)
  /\ dynamic_type (wr get_name s o) = dynamic_type o
  /\ assign_name p s w = Ok tt (World (<[p := CObj (wr get_name s o)]> (heap w)) (cout w))
  /\ observe ((assign_name p s;; arrow p (call g)) w) = observe (arrow p (call g) w).
Proof.
  assert (Hassign : assign_name p s w
            = Ok tt (World (<[p := CObj (wr get_name s o)]> (heap w)) (cout w))).
  { unfold assign_name. rewrite run_bind, (run_load_obj _ _ _ Hp).
    now rewrite (run_store _ _ _ _ Hp). }
  split; [|split; [|split; [|split]]].
  - destruct o as [[[?] ? ? ?]|[[?] ? ? ?]|[[[?] ? ? ?] ? ?]|[[[[?] ? ? ?] ? ?]]|[[[?] ? ? ?] ? ? ? ?]];
      reflexivity.
  - intros s'. now destruct o.
  - now destruct o.
  - exact Hassign.
  - rewrite run_bind, Hassign.
    rewrite (run_arrow p _ (wr get_name s o)) by apply lookup_insert_eq.
    rewrite (run_arrow p _ o) by exact Hp.
    destruct g, o as [c|q|r|sq|t]; cbn;
      unfold Circle.get_area, Circle.get_perimeter, Polygon.get_area,
        Polygon.get_perimeter, Rectangle.get_perimeter, Square.get_area;
      rewrite ?run_bind; cbn;
      repeat match goal with
             | |- context [read ?v] => destruct v; cbn
             end; reflexivity.
Qed.


(** X7.  Two Trapezoids own two different blocks: destroying either leaves
    the angled side of the other readable, destroying both in either
    order restores the free store, and destroying one twice is a fault. *)
Theorem trapezoids_do_not_share (n1 n2 : string) (l1 s1 h1 l2 s2 h2 : float) w :
  exists t1 t2 w2,
    (t1 ← Trapezoid.Trapezoid n1 l1 s1 h1;
     t2 ← Trapezoid.Trapezoid n2 l2 s2 h2;
     mret (t1, t2)) w = Ok (t1, t2) w2
    /\ Trapezoid.m_angled_side_length t1 <> Trapezoid.m_angled_side_length t2
    /\ observe ((Trapezoid.dtor t1;;
                 load_double (Trapezoid.m_angled_side_length t2)) w2)
       = inr (sqrt (pow ((l2 - s2) / 2) 2 + pow h2 2), cout w)
    /\ observe ((Trapezoid.dtor t2;;
                 load_double (Trapezoid.m_angled_side_length t1)) w2)
       = inr (sqrt (pow ((l1 - s1) / 2) 2 + pow h1 2), cout w)
    /\ (Trapezoid.dtor t1;; Trapezoid.dtor t2) w2 = Ok tt w
    /\ (Trapezoid.dtor t2;; Trapezoid.dtor t1) w2 = Ok tt w
    /\ (Trapezoid.dtor t1;; Trapezoid.dtor t1) w2
       = Fault (InvalidAccess (Trapezoid.m_angled_side_length t1)).
Proof.
  eexists _, _, _. split.
  { rewrite run_bind, Trapezoid_run, run_bind, Trapezoid_run. reflexivity. }
  cbn [heap cout Trapezoid.m_angled_side_length].
  set (v1 := sqrt (pow ((l1 - s1) / 2) 2 + pow h1 2)).
  set (v2 := sqrt (pow ((l2 - s2) / 2) 2 + pow h2 2)).
  destruct (second_fresh (heap w) (CDouble (Some v1))) as (Ha1 & Ha2 & Hne).
  set (a1 := fresh (dom (heap w))) in *.
  set (a2 := fresh (dom (<[a1 := CDouble (Some v1)]> (heap w)))) in *.
  assert (Hl1 : (<[a2 := CDouble (Some v2)]> (<[a1 := CDouble (Some v1)]> (heap w)))
                !! a1 = Some (CDouble (Some v1))).
  { rewrite lookup_insert_ne by done. apply lookup_insert_eq. }
  assert (Hl2 : (<[a2 := CDouble (Some v2)]> (<[a1 := CDouble (Some v1)]> (heap w)))
                !! a2 = Some (CDouble (Some v2))) by apply lookup_insert_eq.
  unfold Trapezoid.dtor, Polygon.dtor, Shape.dtor.
  split; [congruence|].
  split; [|split; [|split; [|split]]].
  - rewrite !run_bind, (run_delete_double a1 (Some v1)) by exact Hl1.
    rewrite run_ret, (run_load_double a2 v2); [reflexivity|].
    cbn [heap]. rewrite lookup_delete_ne by congruence. exact Hl2.
  - rewrite !run_bind, (run_delete_double a2 (Some v2)) by exact Hl2.
    rewrite run_ret, (run_load_double a1 v1); [reflexivity|].
    cbn [heap]. rewrite lookup_delete_ne by congruence. exact Hl1.
  - rewrite !run_bind, (run_delete_double a1 (Some v1)) by exact Hl1.
    rewrite run_ret, !run_bind, (run_delete_double a2 (Some v2)).
    + rewrite run_ret. cbn [heap cout]. apply Ok_world; [|reflexivity].
      apply map_eq. intros i. rewrite !lookup_delete, !lookup_insert.
      repeat case_decide; subst; congruence.
    + cbn [heap]. rewrite lookup_delete_ne by congruence. exact Hl2.
  - rewrite !run_bind, (run_delete_double a2 (Some v2)) by exact Hl2.
    rewrite run_ret, !run_bind, (run_delete_double a1 (Some v1)).
    + rewrite run_ret. cbn [heap cout]. apply Ok_world; [|reflexivity].
      apply map_eq. intros i. rewrite !lookup_delete, !lookup_insert.
      repeat case_decide; subst; congruence.
    + cbn [heap]. rewrite lookup_delete_ne by congruence. exact Hl1.
  - rewrite !run_bind, (run_delete_double a1 (Some v1)) by exact Hl1.
    rewrite run_ret, !run_bind. unfold delete_double, bind, load. cbn [heap].
    now rewrite lookup_delete_eq.
Qed.

(** X10.  After [delete] the pointer dangles, for every class and every
    base type of the pointer: an accessor call, an assignment to the name
    and a second [delete] through it are all faults. *)
Theorem deleted_pointer_dangles (args : ctor_args) w :
  exists p o w1,
    new_ (construct args) w = Ok p w1
    /\ heap w1 !! p = Some (CObj o)
    /\ forall T, derives (dynamic_type o) T = true ->
       (forall g, (delete_ T p;; arrow p (call g)) w1 = Fault (InvalidAccess p))
       /\ (forall s, (delete_ T p;; assign_name p s) w1 = Fault (InvalidAccess p))
       /\ (delete_ T p;; delete_ T p) w1 = Fault (InvalidAccess p).
Proof.
  destruct (delete_constructed_restores args w) as (p & o & w1 & Hnew & Hp & Hdel).
  exists p, o, w1. split; [exact Hnew|]. split; [exact Hp|].
  assert (Hp0 : heap w !! p = None).
  { unfold new_ in Hnew. rewrite run_bind, run_alloc, run_bind in Hnew.
    destruct (construct args (World _ (cout w))) as [o' w'|]; [|discriminate].
    rewrite run_bind in Hnew.
    destruct (store (fresh (dom (heap w))) (CObj o') w'); [|discriminate].
    rewrite run_ret in Hnew. inversion Hnew. apply fresh_heap. }
  intros T HT. repeat split.
  - intros g. rewrite run_bind, (Hdel T HT). unfold arrow.
    rewrite run_bind. unfold load_obj, bind, load. now rewrite Hp0.
  - intros s. rewrite run_bind, (Hdel T HT). unfold assign_name.
    rewrite run_bind. unfold load_obj, bind, load. now rewrite Hp0.
  - rewrite run_bind, (Hdel T HT). unfold delete_.
    rewrite run_bind. unfold load_obj, bind, load. now rewrite Hp0.
Qed.
(** X6.  [new] returns a pointer to a block that was not in the free
    store before, and a Trapezoid's angled side is one more such block,
    different from the object's; the blocks that were there stay as they
    were, and nothing is written to [cout]. *)
Theorem new_takes_fresh_blocks (args : ctor_args) w :
  exists p o w1,
    new_ (construct args) w = Ok p w1
    /\ heap w !! p = None
    /\ heap w1 !! p = Some (CObj o)
    /\ (forall l c, heap w !! l = Some c -> heap w1 !! l = Some c)
    /\ cout w1 = cout w
    /\ match args with
       | MkTrapezoid _ _ _ _ =>
           exists t, o = OTrapezoid t
             /\ let a := Trapezoid.m_angled_side_length t in
                a <> p /\ heap w !! a = None
                /\ exists v, heap w1 !! a = Some (CDouble (Some v))
       | _ => True
       end.
Proof.
  pose proof (fresh_heap w) as Hp0.
  destruct (second_fresh (heap w) CRaw) as (_ & Ha0 & Hne).
  assert (Hpure : forall o : object,
            exists p w1,
              new_ (mret o) w = Ok p w1
              /\ heap w !! p = None
              /\ heap w1 !! p = Some (CObj o)
              /\ (forall l c, heap w !! l = Some c -> heap w1 !! l = Some c)
              /\ cout w1 = cout w).
  { intros o. eexists _, _. split; [apply new_pure_run|]. cbn [heap cout].
    split; [exact Hp0|]. split; [apply lookup_insert_eq|]. split.
    - intros l c Hl. rewrite lookup_insert_ne; [exact Hl|congruence].
    - reflexivity. }
  destruct args as [name r|name k|name a b|name a|name l s h].
  1-4: cbn [construct];
    match goal with
    | |- context [new_ (mret ?o)] =>
        destruct (Hpure o) as (p & w1 & Hnew & Hp & Hp1 & Hold & Hout);
        exists p, o, w1; repeat split; assumption
    end.
  eexists _, _, _. split; [apply new_Trapezoid_explicit|]. cbn [heap cout].
  set (p := fresh (dom (heap w))) in *.
  set (a := fresh (dom (<[p := CRaw]> (heap w)))) in *.
  split; [exact Hp0|]. split; [apply lookup_insert_eq|]. split; [|split].
  - intros l0 c Hl. rewrite !lookup_insert_ne; [exact Hl|congruence..].
  - reflexivity.
  - eexists. split; [reflexivity|].
    cbn [Trapezoid.m_angled_side_length]. split; [exact Hne|].
    split; [exact Ha0|]. eexists.
    rewrite lookup_insert_ne by (intros Heq; now apply Hne).
    apply lookup_insert_eq.
Qed.
End Ownership.

(** ** Shape.cc: the program *)

Section MainCC.
Import Shape_cc.
Context `{Cmath}.
#[local] Open Scope float_scope.
#[local] Open Scope list_scope.
Implicit Types w : world object.

Lemma area_line_run (x : loc) (o : object) (a : float) diag w :
  heap w !! x = Some (CObj o) ->
  (forall w', get_area o w' = Ok a (World (heap w') (cout w' ++ diag))) ->
  area_line x w
  = Ok tt (World (heap w)
                 (cout w ++ [OStr "The area of "; OStr (rd get_name o); OStr " is: "]
                         ++ diag ++ [ODouble a; OEndl])).
Proof.
  intros Hx Ha. unfold area_line.
  rewrite run_bind. unfold print at 1.
  rewrite run_bind, (run_arrow x _ o) by exact Hx. rewrite run_ret.
  rewrite run_bind. unfold print at 1. cbn [heap cout].
  rewrite run_bind, (run_arrow x _ o) by exact Hx. rewrite Ha.
  unfold print. cbn [heap cout]. do 2 f_equal.
  rewrite <- !app_assoc. reflexivity.
Qed.

Lemma perimeter_line_run (x : loc) (o : object) (a : float) w :
  heap w !! x = Some (CObj o) ->
  (forall w', get_perimeter o w' = Ok a w') ->
  perimeter_line x w
  = Ok tt (World (heap w)
                 (cout w ++ [OStr "The perimeter of "; OStr (rd get_name o);
                             OStr " is: "; ODouble a; OEndl])).
Proof.
  intros Hx Ha. unfold perimeter_line.
  rewrite run_bind. unfold print at 1.
  rewrite run_bind, (run_arrow x _ o) by exact Hx. rewrite run_ret.
  rewrite run_bind. unfold print at 1. cbn [heap cout].
  rewrite run_bind, (run_arrow x _ o) by exact Hx. rewrite Ha.
  unfold print. cbn [heap cout]. do 2 f_equal.
  rewrite <- !app_assoc. reflexivity.
Qed.

Lemma quiet (o : object) (a : float) :
  (forall w, get_area o w = Ok a w) ->
  forall w, get_area o w = Ok a (World (heap w) (cout w ++ [])).
Proof. intros Ha w. now rewrite app_nil_r, world_eta. Qed.

Lemma delete_Trapezoid_explicit (T : klass) (p a : loc) (t : Trapezoid.t) v h out :
  h !! p = None -> h !! a = None -> a <> p ->
  Trapezoid.m_angled_side_length t = a ->
  derives KTrapezoid T = true ->
  delete_ T p (World (<[p := CObj (OTrapezoid t)]>
                        (<[a := CDouble (Some v)]> (<[p := CRaw]> h))) out)
  = Ok tt (World h out).
Proof.
  intros Hp Ha Hne Hat HT.
  rewrite (delete_run T p (OTrapezoid t)) by (assumption || apply lookup_insert_eq).
  rewrite run_bind, (Trapezoid_dtor_run t (Some v)) by (rewrite Hat; lookup).
  rewrite Hat. erewrite run_dealloc by lookup.
  cbn [heap cout]. f_equal. f_equal. now apply heap_restored.
Qed.

(** X11.  [main] of Shape.cc, started in any world, returns 0 without a
    fault, leaves the free store exactly as it found it, and appends to
    [cout] a text that does not depend on the world. *)
Theorem main_restores_the_free_store :
  exists out, forall w, main w = Ok 0%Z (World (heap w) (cout w ++ out)).
Proof.
  eexists. intros w. unfold main.
  pose proof (fresh_heap w) as Hp0.
  destruct (second_fresh (heap w) CRaw) as (_ & Ha0 & Hne).
  (* Circle *)
  unfold new_Circle. rewrite run_bind, new_pure_run.
  set (p := fresh (dom (heap w))) in *.
  set (a := fresh (dom (<[p := CRaw]> (heap w)))) in *.
  rewrite run_bind. unfold print at 1. cbn [heap cout].
  rewrite run_bind; erewrite (area_line_run p); [|lookup|apply quiet; reflexivity]; cbn [heap cout].
  rewrite run_bind; erewrite (perimeter_line_run p); [|lookup|reflexivity]; cbn [heap cout].
  rewrite run_bind. unfold print at 1. cbn [heap cout].
  rewrite run_bind, delete_pure_run by done.
  (* Rectangle *)
  unfold new_Rectangle. rewrite run_bind, new_pure_run. cbn [heap cout]. fold p.
  rewrite run_bind. unfold print at 1. cbn [heap cout].
  rewrite run_bind; erewrite (area_line_run p); [|lookup|apply quiet; reflexivity]; cbn [heap cout].
  rewrite run_bind; erewrite (perimeter_line_run p); [|lookup|reflexivity]; cbn [heap cout].
  rewrite run_bind. unfold print at 1. cbn [heap cout].
  rewrite run_bind, delete_pure_run by done.
  (* Square *)
  unfold new_Square. rewrite run_bind, new_pure_run. cbn [heap cout]. fold p.
  rewrite run_bind. unfold print at 1. cbn [heap cout].
  rewrite run_bind; erewrite (area_line_run p);
    [|lookup|intros w'; now apply square_get_area_run]; cbn [heap cout].
  rewrite run_bind; erewrite (perimeter_line_run p); [|lookup|reflexivity]; cbn [heap cout].
  rewrite run_bind. unfold print at 1. cbn [heap cout].
  rewrite run_bind. unfold print at 1. cbn [heap cout].
  rewrite run_bind; erewrite (area_line_run p);
    [|lookup|intros w'; now apply square_get_area_run]; cbn [heap cout].
  rewrite run_bind; erewrite (perimeter_line_run p); [|lookup|reflexivity]; cbn [heap cout].
  rewrite run_bind, delete_pure_run by done.
  (* Trapezoid *)
  rewrite run_bind, new_Trapezoid_explicit. cbn [heap cout]. fold p. fold a.
  rewrite run_bind. unfold print at 1. cbn [heap cout].
  rewrite run_bind; erewrite (area_line_run p); [|lookup|apply quiet; reflexivity]; cbn [heap cout].
  rewrite run_bind; erewrite (perimeter_line_run p); [|lookup|reflexivity]; cbn [heap cout].
  rewrite run_bind. unfold print at 1. cbn [heap cout].
  rewrite run_bind, delete_Trapezoid_explicit by done.
  rewrite run_ret. do 2 f_equal.
  rewrite <- !app_assoc. cbn. reflexivity.
Qed.
End MainCC.

(** ** Shape_RAII.cc: the program *)

Section RunMore.
Context {obj : Type}.
Implicit Types w : world obj.

Lemma run_make_shared_pure (o : obj) w :
  let p := fresh (dom (heap w)) in
  let c := fresh (dom (<[p := CObj o]> (heap w))) in
  make_shared (ret o) w
  = Ok c (World (<[c := CCtrl 1 p]> (<[p := CObj o]> (heap w))) (cout w)).
Proof.
  intros p c.
  refine (eq_trans (run_make_shared (ret o) o w (<[p := CRaw]> (heap w)) (cout w)
                      eq_refl _) _).
  - apply lookup_insert_eq.
  - fold p. rewrite insert_insert_eq. reflexivity.
Qed.

Lemma run_sp_get (c p : loc) (k : nat) w :
  heap w !! c = Some (CCtrl k p) -> sp_get c w = Ok p w.
Proof. intros Hc. unfold sp_get, bind. now rewrite (run_load _ _ _ Hc). Qed.

Lemma run_sp_copy (c p : loc) (k : nat) w :
  heap w !! c = Some (CCtrl k p) ->
  sp_copy c w = Ok c (World (<[c := CCtrl (S k) p]> (heap w)) (cout w)).
Proof.
  intros Hc. unfold sp_copy, bind. rewrite (run_load _ _ _ Hc).
  now rewrite (run_store _ _ _ _ Hc).
Qed.

Lemma run_sp_release_shared (destroy : loc -> M obj unit) (c p : loc) (k : nat) w :
  heap w !! c = Some (CCtrl (S (S k)) p) ->
  sp_release destroy c w = Ok tt (World (<[c := CCtrl (S k) p]> (heap w)) (cout w)).
Proof.
  intros Hc. unfold sp_release, bind. rewrite (run_load _ _ _ Hc).
  now rewrite (run_store _ _ _ _ Hc).
Qed.
End RunMore.

Section MainRAII.
Import Shape_RAII.
Context `{Cmath}.
#[local] Open Scope float_scope.
#[local] Open Scope list_scope.
Implicit Types w : world object.

Lemma RAII_run_arrow {A} (p : loc) (f : object -> M object A) (o : object) w :
  heap w !! p = Some (CObj o) -> arrow p f w = f o w.
Proof.
  intros Hp. unfold arrow. now rewrite run_bind, (run_load_obj _ _ _ Hp).
Qed.

Lemma RAII_run_sp_arrow {A} (c p : loc) (k : nat) (f : object -> M object A)
    (o : object) w :
  heap w !! c = Some (CCtrl k p) -> heap w !! p = Some (CObj o) ->
  sp_arrow c f w = f o w.
Proof.
  intros Hc Hp. unfold sp_arrow.
  rewrite run_bind, (run_sp_get _ _ _ _ Hc). now apply RAII_run_arrow.
Qed.

Lemma RAII_area_line_run (x : forall A, (object -> M object A) -> M object A)
    (o : object) (a : float) diag w :
  (forall A (f : object -> M object A) w', heap w' = heap w -> x A f w' = f o w') ->
  (forall w', get_area o w' = Ok a (World (heap w') (cout w' ++ diag))) ->
  area_line x w
  = Ok tt (World (heap w)
                 (cout w ++ [OStr "The area of "; OStr (rd get_name o); OStr " is: "]
                         ++ diag ++ [ODouble a; OEndl])).
Proof.
  intros Hx Ha. unfold area_line.
  rewrite run_bind. unfold print at 1.
  rewrite run_bind, Hx by reflexivity. rewrite run_ret.
  rewrite run_bind. unfold print at 1. cbn [heap cout].
  rewrite run_bind, Hx by reflexivity. rewrite Ha.
  unfold print. cbn [heap cout]. do 2 f_equal.
  rewrite <- !app_assoc. reflexivity.
Qed.

Lemma RAII_perimeter_line_run (x : forall A, (object -> M object A) -> M object A)
    (o : object) (a : float) w :
  (forall A (f : object -> M object A) w', heap w' = heap w -> x A f w' = f o w') ->
  (forall w', get_perimeter o w' = Ok a w') ->
  perimeter_line x w
  = Ok tt (World (heap w)
                 (cout w ++ [OStr "The perimeter of "; OStr (rd get_name o);
                             OStr " is: "; ODouble a; OEndl])).
Proof.
  intros Hx Ha. unfold perimeter_line.
  rewrite run_bind. unfold print at 1.
  rewrite run_bind, Hx by reflexivity. rewrite run_ret.
  rewrite run_bind. unfold print at 1. cbn [heap cout].
  rewrite run_bind, Hx by reflexivity. rewrite Ha.
  unfold print. cbn [heap cout]. do 2 f_equal.
  rewrite <- !app_assoc. reflexivity.
Qed.

Lemma RAII_quiet (o : object) (a : float) :
  (forall w, get_area o w = Ok a w) ->
  forall w, get_area o w = Ok a (World (heap w) (cout w ++ [])).
Proof. intros Ha w. now rewrite app_nil_r, world_eta. Qed.

Lemma RAII_square_get_area_run (sq : Square.t) (a : float) w :
  Polygon.m_area (Rectangle.base (Square.base sq)) = Some a ->
  get_area (OSquare sq) w =
    Ok a (World (heap w)
                (cout w ++ [OStr "The square of ";
                            ODouble (Rectangle.m_side1 (Square.base sq));
                            OStr "!"; OEndl])).
Proof.
  intros Ha. cbn. unfold Square.get_area.
  rewrite run_bind. cbn. now rewrite Ha.
Qed.

Lemma RAII_destroy_run (p : loc) (o : object) w :
  heap w !! p = Some (CObj o) -> dtor o = mret tt ->
  destroy p w = Ok tt (World (delete p (heap w)) (cout w)).
Proof.
  intros Hp Hd. unfold destroy.
  rewrite run_bind, (run_load_obj _ _ _ Hp), Hd, run_bind, run_ret.
  now erewrite run_dealloc by exact Hp.
Qed.

Lemma RAII_destroy_Trapezoid_run (p : loc) (t : Trapezoid.t) d w :
  heap w !! p = Some (CObj (OTrapezoid t)) ->
  heap w !! Trapezoid.m_angled_side_length t = Some (CDouble d) ->
  Trapezoid.m_angled_side_length t <> p ->
  destroy p w
  = Ok tt (World (delete p (delete (Trapezoid.m_angled_side_length t) (heap w)))
                 (cout w)).
Proof.
  intros Hp Ha Hne. unfold destroy.
  rewrite run_bind, (run_load_obj _ _ _ Hp).
  rewrite run_bind, (RAII_Trapezoid_dtor_run t d) by exact Ha.
  erewrite run_dealloc by (cbn [heap]; rewrite lookup_delete_ne by exact Hne; exact Hp).
  reflexivity.
Qed.

Lemma make_shared_Trapezoid_explicit (name : string) (l s h : float) w :
  let p := fresh (dom (heap w)) in
  let a := fresh (dom (<[p := CRaw]> (heap w))) in
  let angled := sqrt (pow ((l - s) / 2) 2 + pow h 2) in
  let t := {| Trapezoid.base :=
                {| Polygon.base := Shape.Shape name; Polygon.m_sides := 4;
                   Polygon.m_area := Some (h * (l + s) / 2);
                   Polygon.m_perimeter := Some (s + l + 2 * angled) |};
              Trapezoid.m_long_side := l; Trapezoid.m_short_side := s;
              Trapezoid.m_height := h;
              Trapezoid.m_angled_side_length := a |} in
  let h2 := <[p := CObj (OTrapezoid t)]>
              (<[a := CDouble (Some angled)]> (<[p := CRaw]> (heap w))) in
  make_shared (OTrapezoid <$> Trapezoid.Trapezoid name l s h) w
  = Ok (fresh (dom h2)) (World (<[fresh (dom h2) := CCtrl 1 p]> h2) (cout w)).
Proof.
  intros p a angled t h2.
  apply (run_make_shared (obj:=object)).
  - rewrite run_fmap, RAII_Trapezoid_run. reflexivity.
  - destruct (second_fresh (heap w) CRaw) as (_ & _ & Hne).
    rewrite lookup_insert_ne by exact Hne. apply lookup_insert_eq.
Qed.

Lemma RAII_new_pure_run (o : object) w :
  make_unique (mret o) w
  = Ok (fresh (dom (heap w)))
       (World (<[fresh (dom (heap w)) := CObj o]> (heap w)) (cout w)).
Proof.
  unfold make_unique, new_.
  refine (eq_trans (run_new (obj:=object) (mret o) o w
                      (<[fresh (dom (heap w)) := CRaw]> (heap w)) (cout w) eq_refl _) _).
  - apply lookup_insert_eq.
  - now rewrite insert_insert_eq.
Qed.

Lemma RAII_delete_pure_run (T : klass) (p : loc) (o : object) w :
  heap w !! p = Some (CObj o) -> dtor o = mret tt ->
  derives (dynamic_type o) T = true ->
  delete_ T p w = Ok tt (World (delete p (heap w)) (cout w)).
Proof.
  intros Hp Hd HT. rewrite (RAII_delete_run T p o) by assumption.
  rewrite Hd, run_bind, run_ret. now erewrite run_dealloc by exact Hp.
Qed.

(** Names the location that the next allocation in heap [h] returns, and
    records that it differs from every key inserted into [h]. *)
Tactic Notation "name_fresh" constr(h) ident(k) ident(Hk) :=
  pose proof (fresh_heap (World (obj:=object) h [])) as Hk; cbn [heap] in Hk;
  set (k := fresh (dom h)) in *;
  fresh_facts Hk.

Ltac with_heap tac :=
  match goal with |- ?m (World ?h ?o) = _ => tac h end.

Ltac by_arrow p :=
  intros ? ? ? Hw'; apply RAII_run_arrow; rewrite Hw'; lookup.
Ltac by_sp_arrow c p k :=
  intros ? ? ? Hw'; apply (RAII_run_sp_arrow c p k); rewrite Hw'; lookup.

Ltac do_print := rewrite run_bind; unfold print at 1; cbn [heap cout].
Ltac do_area x tac :=
  rewrite run_bind; erewrite (RAII_area_line_run x);
  [|tac|apply RAII_quiet; reflexivity]; cbn [heap cout].
Ltac do_area_square x tac :=
  rewrite run_bind; erewrite (RAII_area_line_run x);
  [|tac|intros ?; now apply RAII_square_get_area_run]; cbn [heap cout].
Ltac do_perimeter x tac :=
  rewrite run_bind; erewrite (RAII_perimeter_line_run x);
  [|tac|reflexivity]; cbn [heap cout].

(** X12.  [main] of Shape_RAII.cc, which never calls [delete], started in
    any world, returns 0 without a fault, leaves the free store exactly
    as it found it (the unused [unique_ptr] and every group of
    [shared_ptr]s release their objects at the end of the scope), and
    appends to [cout] a text that does not depend on the world. *)
Theorem RAII_main_restores_the_free_store :
  exists out, forall w, main w = Ok 0%Z (World (heap w) (cout w ++ out)).
Proof.
  eexists. intros [h0 out0]. unfold main. cbn [heap cout].
  change (@mret (M object) _ object) with (@ret object object).
  (* c *)
  rewrite run_bind, run_make_shared_pure; cbn [heap cout].
  name_fresh h0 p1 Hp1.
  with_heap ltac:(fun h => match h with <[_ := _]> ?h' => name_fresh h' c1 Hc1 end).
  rewrite run_bind, (run_sp_get c1 p1 1) by lookup.
  do_print.
  do_area (λ A, @arrow A p1) ltac:(by_arrow p1).
  do_perimeter (λ A, @arrow A p1) ltac:(by_arrow p1).
  do_print.
  (* r1 *)
  with_heap ltac:(fun h =>
    change (@ret object object) with (@mret (M object) _ object);
    rewrite run_bind, RAII_new_pure_run; cbn [heap cout];
    change (@mret (M object) _ object) with (@ret object object);
    name_fresh h p2 Hp2).
  (* r, s1 *)
  with_heap ltac:(fun h =>
    rewrite run_bind, run_make_shared_pure; cbn [heap cout];
    name_fresh h p3 Hp3).
  with_heap ltac:(fun h => match h with <[_ := _]> ?h' => name_fresh h' c3 Hc3 end).
  rewrite run_bind, (run_sp_copy c3 p3 1) by lookup. cbn [heap cout].
  do_print.
  do_area (λ A, @sp_arrow A c3) ltac:(by_sp_arrow c3 p3 2%nat).
  do_perimeter (λ A, @sp_arrow A c3) ltac:(by_sp_arrow c3 p3 2%nat).
  do_print.
  (* q, p *)
  with_heap ltac:(fun h =>
    rewrite run_bind, run_make_shared_pure; cbn [heap cout];
    name_fresh h p4 Hp4).
  with_heap ltac:(fun h => match h with <[_ := _]> ?h' => name_fresh h' c4 Hc4 end).
  rewrite run_bind, (run_sp_copy c4 p4 1) by lookup. cbn [heap cout].
  do_print.
  do_area_square (λ A, @sp_arrow A c4) ltac:(by_sp_arrow c4 p4 2%nat).
  do_perimeter (λ A, @sp_arrow A c4) ltac:(by_sp_arrow c4 p4 2%nat).
  do_print. do_print.
  do_area_square (λ A, @sp_arrow A c4) ltac:(by_sp_arrow c4 p4 2%nat).
  do_perimeter (λ A, @sp_arrow A c4) ltac:(by_sp_arrow c4 p4 2%nat).
  (* t *)
  with_heap ltac:(fun h =>
    rewrite run_bind, make_shared_Trapezoid_explicit; cbn [heap cout];
    name_fresh h p5 Hp5).
  with_heap ltac:(fun h =>
    match h with <[_ := _]> (<[_ := _]> (<[_ := _]> ?h')) => name_fresh h' a5 Ha5 end).
  with_heap ltac:(fun h => match h with <[_ := _]> ?h' => name_fresh h' c5 Hc5 end).
  rewrite run_bind, (run_sp_copy c5 p5 1) by lookup. cbn [heap cout].
  (* p = t *)
  unfold shared_ptr_dtor.
  rewrite run_bind, (run_sp_release_shared destroy c4 p4 0) by lookup.
  cbn [heap cout].
  do_print.
  rewrite run_bind; erewrite (RAII_area_line_run (λ A, @sp_arrow A c5));
    [|by_sp_arrow c5 p5 2%nat|apply RAII_quiet; reflexivity]; cbn [heap cout].
  do_perimeter (λ A, @sp_arrow A c5) ltac:(by_sp_arrow c5 p5 2%nat).
  do_print.
  (* the end of the scope *)
  rewrite run_bind, (run_sp_release_shared destroy c5 p5 0) by lookup.
  cbn [heap cout].
  with_heap ltac:(fun h =>
    match goal with |- _ (World _ ?o) = _ =>
      assert (Hdes : destroy p5 (World h o)
                     = Ok tt (World (delete p5 (delete a5 h)) o))
        by (erewrite (RAII_destroy_Trapezoid_run p5 _ (Some _));
            [|lookup|cbn [Trapezoid.m_angled_side_length]; lookup|cbn; congruence];
            reflexivity)
    end).
  rewrite run_bind.
  erewrite (run_sp_last_release destroy c5 p5 _ _ (CCtrl 1 p5));
    [|lookup|exact Hdes|lookup].
  clear Hdes. cbn [heap cout].
  rewrite run_bind; erewrite (run_sp_last_release destroy c4 p4 _ _ (CCtrl 1 p4));
    [|lookup|eapply (RAII_destroy_run p4); [lookup|reflexivity]|lookup];
    cbn [heap cout].
  rewrite run_bind, (run_sp_release_shared destroy c3 p3 0) by lookup.
  cbn [heap cout].
  rewrite run_bind; erewrite (run_sp_last_release destroy c3 p3 _ _ (CCtrl 1 p3));
    [|lookup|eapply (RAII_destroy_run p3); [lookup|reflexivity]|lookup];
    cbn [heap cout].
  unfold unique_ptr_dtor.
  rewrite run_bind; erewrite (RAII_delete_pure_run KRectangle p2);
    [|lookup|reflexivity|reflexivity]; cbn [heap cout].
  rewrite run_bind; erewrite (run_sp_last_release destroy c1 p1 _ _ (CCtrl 1 p1));
    [|lookup|eapply (RAII_destroy_run p1); [lookup|reflexivity]|lookup];
    cbn [heap cout].
  rewrite run_ret. f_equal. f_equal.
  - apply map_eq. intros i.
    destruct (decide (i = p1)) as [->|]; [lookup; congruence|].
    destruct (decide (i = c1)) as [->|]; [lookup; congruence|].
    destruct (decide (i = p2)) as [->|]; [lookup; congruence|].
    destruct (decide (i = p3)) as [->|]; [lookup; congruence|].
    destruct (decide (i = c3)) as [->|]; [lookup; congruence|].
    destruct (decide (i = p4)) as [->|]; [lookup; congruence|].
    destruct (decide (i = c4)) as [->|]; [lookup; congruence|].
    destruct (decide (i = p5)) as [->|]; [lookup; congruence|].
    destruct (decide (i = a5)) as [->|]; [lookup; congruence|].
    destruct (decide (i = c5)) as [->|]; [lookup; congruence|].
    lookup.
  - rewrite <- !app_assoc. cbn. reflexivity.
Qed.
End MainRAII.

Lemma renaming_changes_only_the_name_witness :
  let o := Shape_cc.OSquare (Shape_cc.Square.Square "the box" 1) in
  let w := World {[1%positive := CObj o]} [] in
  heap w !! 1%positive = Some (CObj o)
  /\ observe ((Shape_cc.assign_name 1%positive "the crate";;
               Shape_cc.arrow 1%positive (Shape_cc.call GetArea)) w)
     = observe (Shape_cc.arrow 1%positive (Shape_cc.call GetArea) w).
Proof.
  intros o w. split; [reflexivity|].
  exact (proj2 (proj2 (proj2 (proj2
           (renaming_changes_only_the_name 1%positive o "the crate" GetArea w
              eq_refl))))).
Defined.
